(** * Matchmaking and relay server (server.js): shallow embedding and properties

    The server keeps two pairing structures, [waitingQueue] (an array of
    socket ids) and [partners] (a Map from socket id to partner socket id or
    the string 'bot').  Every socket.io handler of server.js is embedded as a
    function from the server state to the new state and the list of events it
    emits.  [setTimeout] is embedded as a list of pending timers with a due
    time on a millisecond clock; [io.sockets.sockets] as a finite map from
    socket id to the socket's [connected] flag. *)

From Stdlib Require Import ZArith Lia Ascii.
From stdpp Require Import base gmap strings list.

(** ** Data model *)

(** Events the server sends to a client (the second argument of
    [socket.emit]). The [bot] field of 'paired' is absent for human pairs. *)
Inductive event :=
| Status (msg : string)
| Retry
| Paired (partnerId : string) (bot : option bool)
| PartnerLeft
| Message (from text : string)
| Typing (isTyping : bool)
| WebrtcOffer (from sdp : string)
| WebrtcAnswer (from sdp : string)
| WebrtcIceCandidate (from candidate : string).

(** An emission is the id of the receiving socket and the event. *)
Definition emission : Type := string * event.

(** The two closures handed to [setTimeout]: the bot fallback of 'find'
    (server.js 56-63) and the delayed bot reply of 'message' (104-106). *)
Inductive callback :=
| BotFallback (socket_id : string)
| BotReply (socket_id : string) (text : string).

Record timer := Timer { timer_id : nat; due : Z; action : callback }.

Record state := State {
  waitingQueue : list string;          (* let waitingQueue = [] *)
  partners : gmap string string;       (* socketId -> partnerSocketId or 'bot' *)
  sockets : gmap string bool;          (* io.sockets.sockets: id -> socket.connected *)
  botTimeout : gmap string nat;        (* socket.botTimeout, per socket object *)
  rooms : list (string * string);      (* (room, member) for socket.join *)
  timers : list timer;                 (* pending setTimeout callbacks *)
  next_timer : nat;                    (* next timer handle *)
  now : Z                              (* clock, in milliseconds *)
}.

Definition init : state :=
  State [] ∅ ∅ ∅ [] [] 0 0.

Definition ENABLE_BOT_FALLBACK : bool := true.

Definition set_waitingQueue (q : list string) (s : state) : state :=
  State q (partners s) (sockets s) (botTimeout s) (rooms s) (timers s) (next_timer s) (now s).
Definition set_partners (p : gmap string string) (s : state) : state :=
  State (waitingQueue s) p (sockets s) (botTimeout s) (rooms s) (timers s) (next_timer s) (now s).
Definition set_sockets (k : gmap string bool) (s : state) : state :=
  State (waitingQueue s) (partners s) k (botTimeout s) (rooms s) (timers s) (next_timer s) (now s).
Definition set_rooms (r : list (string * string)) (s : state) : state :=
  State (waitingQueue s) (partners s) (sockets s) (botTimeout s) r (timers s) (next_timer s) (now s).
Definition set_timers (t : list timer) (s : state) : state :=
  State (waitingQueue s) (partners s) (sockets s) (botTimeout s) (rooms s) t (next_timer s) (now s).
Definition set_now (t : Z) (s : state) : state :=
  State (waitingQueue s) (partners s) (sockets s) (botTimeout s) (rooms s) (timers s) (next_timer s) t.

(** ** Primitives of the runtime *)

(** [const x = io.sockets.sockets.get(id); x && x.connected] *)
Definition live (s : state) (id : string) : bool :=
  match sockets s !! id with
  | Some connected => connected
  | None => false
  end.

(** [!partnerId] for the result of [partners.get]: true for undefined and
    for the empty string. *)
Definition falsy (o : option string) : bool :=
  match o with
  | None => true
  | Some x => bool_decide (x = "")
  end.

(** [socket.botTimeout = setTimeout(cb, delay)]: a fresh handle, due
    [delay] ms from now, remembered on the socket. *)
Definition set_botTimeout (h : string) (delay : Z) (cb : callback) (s : state) : state :=
  State (waitingQueue s) (partners s) (sockets s)
        (<[h := next_timer s]> (botTimeout s)) (rooms s)
        (timers s ++ [Timer (next_timer s) (now s + delay) cb])
        (S (next_timer s)) (now s).

(** [setTimeout(cb, delay)] whose handle is dropped. *)
Definition setTimeout (delay : Z) (cb : callback) (s : state) : state :=
  State (waitingQueue s) (partners s) (sockets s) (botTimeout s) (rooms s)
        (timers s ++ [Timer (next_timer s) (now s + delay) cb])
        (S (next_timer s)) (now s).

(** [clearTimeout(t)] *)
Definition clearTimeout (t : nat) (s : state) : state :=
  set_timers (filter (λ tm, timer_id tm ≠ t) (timers s)) s.

(** [waitingQueue = waitingQueue.filter(id => id !== h)] *)
Definition remove_waiting (h : string) (s : state) : state :=
  set_waitingQueue (filter (λ id, id ≠ h) (waitingQueue s)) s.

(** ** The handlers of server.js *)

(** server.js 19-30 ([console.log] is not modelled). *)
Definition pairSockets (s1 s2 : string) (s : state) : state * list emission :=
  let s := set_partners (<[s1 := s2]> (partners s)) s in
  let s := set_partners (<[s2 := s1]> (partners s)) s in
  let room := "room_" +:+ s1 +:+ "_" +:+ s2 in
  let s := set_rooms (rooms s ++ [(room, s1)]) s in
  let s := set_rooms (rooms s ++ [(room, s2)]) s in
  (s, [(s1, Paired s2 None); (s2, Paired s1 None)]).

Definition greeting : string :=
  "Hi — I'm a bot while you wait. Try 'New' to find a human.".

(** server.js 35-66 *)
Definition on_find (h : string) (s : state) : state * list emission :=
  if bool_decide (is_Some (partners s !! h)) then
    (s, [(h, Status "Already connected")])
  else
    match waitingQueue s with
    | otherId :: rest =>
        let s := set_waitingQueue rest s in            (* waitingQueue.shift() *)
        if live s otherId then pairSockets h otherId s
        else (s, [(h, Status "Candidate disconnected; retrying..."); (h, Retry)])
    | [] =>
        let s := set_waitingQueue (waitingQueue s ++ [h]) s in
        let s := if ENABLE_BOT_FALLBACK
                 then set_botTimeout h 15000 (BotFallback h) s else s in
        (s, [(h, Status "Waiting for a partner...")])
    end.

(** The closure of server.js 56-63, run when the bot fallback timer fires. *)
Definition botFallback_fire (h : string) (s : state) : state * list emission :=
  if bool_decide (h ∈ waitingQueue s) && negb (bool_decide (is_Some (partners s !! h))) then
    let s := remove_waiting h s in
    let s := set_partners (<[h := "bot"]> (partners s)) s in
    (s, [(h, Paired "bot" (Some true)); (h, Message "bot" greeting)])
  else (s, []).

(** server.js 69-78 *)
Definition on_webrtc_offer (h sdp : string) (s : state) : state * list emission :=
  let partnerId := partners s !! h in
  if falsy partnerId || bool_decide (partnerId = Some "bot") then (s, [])
  else
    let p := default "" partnerId in
    if live s p then (s, [(p, WebrtcOffer h sdp)])
    else (s, [(h, Status "Partner disconnected (during offer).")]).

(** server.js 80-85; [to] is [payload.to]. *)
Definition on_webrtc_answer (h to sdp : string) (s : state) : state * list emission :=
  if live s to then (s, [(to, WebrtcAnswer h sdp)]) else (s, []).

(** server.js 87-94 *)
Definition on_webrtc_ice_candidate (h candidate : string) (s : state)
  : state * list emission :=
  let partnerId := partners s !! h in
  if falsy partnerId || bool_decide (partnerId = Some "bot") then (s, [])
  else
    let p := default "" partnerId in
    if live s p then (s, [(p, WebrtcIceCandidate h candidate)]) else (s, []).

(** server.js 171-176 *)
Definition cleanupPartner (socketId : string) (s : state) : state :=
  let partnerId := partners s !! socketId in
  if falsy partnerId then s
  else
    let p := default "" partnerId in
    let s := if bool_decide (p ≠ "bot")
             then set_partners (delete p (partners s)) s else s in
    set_partners (delete socketId (partners s)) s.

(** The double quote character of the reply template. *)
Definition dquote : string := String "034"%char EmptyString.

(** [`Bot: I heard "${data.text}".`] *)
Definition bot_reply (text : string) : string :=
  "Bot: I heard " +:+ dquote +:+ text +:+ dquote +:+ ".".

(** server.js 97-117 *)
Definition on_message (h text : string) (s : state) : state * list emission :=
  let partnerId := partners s !! h in
  if falsy partnerId then (s, [(h, Status "No partner to send to.")])
  else if bool_decide (partnerId = Some "bot") then
    (setTimeout 700 (BotReply h text) s, [])
  else
    let p := default "" partnerId in
    if live s p then
      (s, [(p, Message "stranger" text); (h, Message "you" text)])
    else
      (cleanupPartner h s, [(h, Status "Partner disconnected.")]).

(** The closure of server.js 104-106. *)
Definition botReply_fire (h text : string) (s : state) : state * list emission :=
  (s, [(h, Message "bot" (bot_reply text))]).

(** server.js 119-126 *)
Definition on_typing (h : string) (isTyping : bool) (s : state) : state * list emission :=
  let partnerId := partners s !! h in
  if falsy partnerId || bool_decide (partnerId = Some "bot") then (s, [])
  else
    let p := default "" partnerId in
    if live s p then (s, [(p, Typing isTyping)]) else (s, []).

(** server.js 128-149 *)
Definition on_leave (h : string) (s : state) : state * list emission :=
  let partnerId := partners s !! h in
  if bool_decide (partnerId = Some "bot") then
    (set_partners (delete h (partners s)) s, [(h, Status "Left bot conversation.")])
  else if falsy partnerId then
    (remove_waiting h s, [(h, Status "Stopped waiting.")])
  else
    let p := default "" partnerId in
    if live s p then
      let s := set_partners (delete p (partners s)) s in
      let s := set_partners (delete h (partners s)) s in
      (s, [(p, Status "Partner left the chat."); (p, PartnerLeft);
           (h, Status "You left the chat.")])
    else
      (set_partners (delete h (partners s)) s, [(h, Status "You left the chat.")]).

(** server.js 151-168 *)
Definition on_disconnect (h : string) (s : state) : state * list emission :=
  let s := match botTimeout s !! h with
           | Some t => clearTimeout t s
           | None => s
           end in
  let s := remove_waiting h s in
  let partnerId := partners s !! h in
  if falsy partnerId then (s, [])
  else if bool_decide (partnerId = Some "bot") then
    (set_partners (delete h (partners s)) s, [])
  else
    let p := default "" partnerId in
    if live s p then
      let s := set_partners (delete p (partners s)) s in
      let s := set_partners (delete h (partners s)) s in
      (s, [(p, Status "Partner disconnected."); (p, PartnerLeft)])
    else
      (set_partners (delete h (partners s)) s, []).

Definition run_callback (cb : callback) (s : state) : state * list emission :=
  match cb with
  | BotFallback h => botFallback_fire h s
  | BotReply h text => botReply_fire h text s
  end.

(** ** The event loop *)

(** What can happen to the server between two quiescent points: a client
    connects, a connected client sends one of the events of server.js, a
    connected client's transport closes, a pending timer that is due fires,
    or time passes. *)
Inductive input :=
| Connect (h : string)
| Find (h : string)
| OfferIn (h sdp : string)
| AnswerIn (h to sdp : string)
| IceCandidateIn (h candidate : string)
| MessageIn (h text : string)
| TypingIn (h : string) (isTyping : bool)
| Leave (h : string)
| Disconnect (h : string)
| Fire (t : nat)
| Advance (d : Z).

Definition find_timer (t : nat) (l : list timer) : option timer :=
  head (filter (λ tm, timer_id tm = t) l).

(** One turn of the event loop; [None] when the input cannot occur in [s].
    - Socket ids are issued by socket.io: non-empty, never the string 'bot',
      and not the id of a socket that is currently registered.
    - Only a registered, connected socket delivers client events.
    - When a transport closes, socket.io removes the socket from
      [io.sockets.sockets] and from its rooms and then runs the 'disconnect'
      handler, all in the same turn.
    - A timer fires no earlier than its due time, and once. *)
Definition exec (i : input) (s : state) : option (state * list emission) :=
  match i with
  | Connect h =>
      if bool_decide (sockets s !! h = None)
         && negb (bool_decide (h = "")) && negb (bool_decide (h = "bot"))
      then Some (set_sockets (<[h := true]> (sockets s)) s, [])
      else None
  | Find h => if live s h then Some (on_find h s) else None
  | OfferIn h sdp => if live s h then Some (on_webrtc_offer h sdp s) else None
  | AnswerIn h to sdp => if live s h then Some (on_webrtc_answer h to sdp s) else None
  | IceCandidateIn h c =>
      if live s h then Some (on_webrtc_ice_candidate h c s) else None
  | MessageIn h text => if live s h then Some (on_message h text s) else None
  | TypingIn h b => if live s h then Some (on_typing h b s) else None
  | Leave h => if live s h then Some (on_leave h s) else None
  | Disconnect h =>
      if live s h then
        let s := set_sockets (delete h (sockets s)) s in
        let s := set_rooms (filter (λ r, r.2 ≠ h) (rooms s)) s in
        Some (on_disconnect h s)
      else None
  | Fire t =>
      match find_timer t (timers s) with
      | Some tm =>
          if bool_decide (due tm ≤ now s)%Z
          then Some (run_callback (action tm) (clearTimeout t s))
          else None
      | None => None
      end
  | Advance d =>
      if bool_decide (0 ≤ d)%Z then Some (set_now (now s + d)%Z s, []) else None
  end.

Fixpoint run (tr : list input) (s : state) : option (state * list emission) :=
  match tr with
  | [] => Some (s, [])
  | i :: tr =>
      match exec i s with
      | Some (s', out) =>
          match run tr s' with
          | Some (s'', out') => Some (s'', out ++ out')
          | None => None
          end
      | None => None
      end
  end.

(** The state after a trace from the initial state ([init] when the trace
    cannot occur). *)
Definition state_after (tr : list input) : state :=
  match run tr init with
  | Some (s, _) => s
  | None => init
  end.

(** The states the server can be in at a quiescent point. *)
Inductive reachable : state → Prop :=
| reach_init : reachable init
| reach_step s i s' out :
    reachable s → exec i s = Some (s', out) → reachable s'.

(** ** Sample states and traces *)

(** A and B connected and paired with each other. *)
Definition paired_AB : state :=
  state_after [Connect "A"; Connect "B"; Find "A"; Find "B"].

(** A connected and alone: waiting, then promoted to a bot pairing. *)
Definition bot_paired_A : state :=
  state_after [Connect "A"; Find "A"; Advance 15000; Fire 0].

(** A connected and waiting. *)
Definition waiting_A : state :=
  state_after [Connect "A"; Find "A"].

(** A and B are connected, neither has asked for a partner. *)
Definition strangers_AB : state := state_after [Connect "A"; Connect "B"].

(** A's directory entry names B, whose socket is not registered. *)
Definition stale_AB : state :=
  State [] {["A" := "B"]} {["A" := true]} ∅ [] [] 0 0.

(** A and B name each other, B's socket is not registered. *)
Definition stale_pair_AB : state :=
  State [] (<["A" := "B"]> {["B" := "A"]}) {["A" := true]} ∅ [] [] 0 0.

(** A asks for a partner twice in a row. *)
Definition find_twice : list input := [Connect "A"; Find "A"; Find "A"].

(** A asks for a partner, gives up after 10 s and asks again at once. *)
Definition find_leave_find : list input :=
  [Connect "A"; Find "A"; Advance 10000; Leave "A"; Find "A"].

(** ** Properties of states *)

(** Directory symmetry: a human entry has its back-entry. *)
Definition symmetric (s : state) : Prop :=
  ∀ a b, partners s !! a = Some b → b ≠ "bot" → partners s !! b = Some a.

(** Every pending timer has a handle below the next one to be issued. *)
Definition timers_fresh (s : state) : Prop :=
  ∀ tm, tm ∈ timers s → timer_id tm < next_timer s.

(** The invariant of the event loop.  Registered sockets are connected and
    carry ids that are neither empty nor 'bot'; only registered sockets have
    directory entries; a directory entry is 'bot' or a registered socket
    that points back; queued sockets are registered and have no entry; the
    queue never holds more than one socket (a socket is only pushed onto an
    empty queue); timer handles are fresh. *)
Record inv (s : state) : Prop := Inv {
  inv_ids : ∀ h, sockets s !! h = Some true → h ≠ "" ∧ h ≠ "bot";
  inv_conn : ∀ h c, sockets s !! h = Some c → c = true;
  inv_keys : ∀ a b, partners s !! a = Some b → sockets s !! a = Some true;
  inv_vals : ∀ a b, partners s !! a = Some b →
             b = "bot" ∨ (sockets s !! b = Some true ∧ partners s !! b = Some a);
  inv_queue : ∀ h, h ∈ waitingQueue s →
              sockets s !! h = Some true ∧ partners s !! h = None;
  inv_short : length (waitingQueue s) ≤ 1;
  inv_fresh : timers_fresh s
}.

(** [h] is waiting or paired with somebody else, not both. *)
Definition settled (s : state) (h : string) : Prop :=
  (h ∈ waitingQueue s ∧ partners s !! h = None)
  ∨ ((h ∉ waitingQueue s) ∧ ∃ p, partners s !! h = Some p ∧ p ≠ h).

(** [h] is neither waiting nor paired. *)
Definition idle (s : state) (h : string) : Prop :=
  (h ∉ waitingQueue s) ∧ partners s !! h = None.

(** C4 as the specification states it: an answer from [h] whose target is
    not live, or sent while [h] has no directory entry, makes the server send
    [h] a status message, and leaves the state as it was. *)
Definition answer_rejected_with_status : Prop :=
  ∀ (h to sdp : string) (s : state),
    live s to = false ∨ partners s !! h = None →
    (∃ msg, (h, Status msg) ∈ (on_webrtc_answer h to sdp s).2)
    ∧ (on_webrtc_answer h to sdp s).1 = s.

(** ** Tactics *)

(** Reduce the record projections and setters without touching the maps. *)
Ltac st :=
  cbn [waitingQueue partners sockets botTimeout rooms timers next_timer now
       set_waitingQueue set_partners set_sockets set_rooms set_timers set_now
       set_botTimeout setTimeout clearTimeout remove_waiting fst snd
       default from_option id orb andb negb] in *.

(** Case analysis on the tests of a relay handler. *)
Ltac relay_cases :=
  repeat first
    [ case_bool_decide
    | match goal with
      | |- context [live ?s ?p] => destruct (live s p) eqn:?
      end
    | progress (cbn [default from_option id fst snd orb andb negb] in *)
    | progress simplify_eq ].

(** Replace the state a turn of the event loop produced by the handler's. *)
Ltac exec_state H :=
  apply (inj Some) in H; apply (f_equal fst) in H; cbn [fst] in H.

(** Split a membership in an explicit list of emissions into its cases. *)
Ltac in_list :=
  cbn [fst snd]; rewrite ?elem_of_cons, ?elem_of_nil; intros Hin;
  repeat match goal with
  | H : _ ∨ _ |- _ => destruct H
  | H : False |- _ => destruct H
  | H : (_, _) = (_, _) |- _ => injection H as ? ?
  end; simplify_eq.

(** Lookups after the inserts and deletes of a pairing or a departure. *)
Ltac lookup_done :=
  st;
  first
    [ apply lookup_insert_eq
    | apply lookup_delete_eq
    | match goal with
      | |- <[?a:=_]> _ !! ?b = _ =>
          destruct (decide (a = b)) as [->|];
          [apply lookup_insert_eq
          |rewrite lookup_insert_ne by done; apply lookup_insert_eq]
      | |- delete ?a _ !! ?b = None =>
          destruct (decide (a = b)) as [->|];
          [apply lookup_delete_eq
          |rewrite lookup_delete_ne by done; apply lookup_delete_eq]
      end ].

(** ** Traces and reachable states *)

Lemma run_reachable tr : ∀ s s' out,
  reachable s → run tr s = Some (s', out) → reachable s'.
Proof.
  induction tr as [|i tr IH]; intros s s' out Hs Hrun; simpl in Hrun.
  - by simplify_eq.
  - destruct (exec i s) as [[s1 o1]|] eqn:He; [|done].
    destruct (run tr s1) as [[s2 o2]|] eqn:Hr; [|done].
    simplify_eq. eapply IH; [|exact Hr]. by eapply reach_step.
Qed.

Lemma state_after_reachable tr : is_Some (run tr init) → reachable (state_after tr).
Proof.
  intros [[s out] Hrun]. unfold state_after. rewrite Hrun.
  eapply run_reachable; [apply reach_init | exact Hrun].
Qed.

Lemma live_iff (s : state) (id : string) :
  live s id = true ↔ sockets s !! id = Some true.
Proof.
  unfold live. destruct (sockets s !! id) as [[]|]; naive_solver.
Qed.

Lemma is_Some_None_eq {A} (o : option A) : ¬ is_Some o → o = None.
Proof. destruct o; [|done]. intros H. exfalso. eauto. Qed.

Section filter_facts.
Context {A : Type} (P : A → Prop) `{!∀ x, Decision (P x)}.

Lemma filter_all (l : list A) : (∀ x, x ∈ l → P x) → filter P l = l.
Proof.
  induction l as [|x l IH]; intros Hall; [done|].
  rewrite filter_cons_True by (apply Hall; left).
  f_equal. apply IH. intros y Hy. apply Hall. by right.
Qed.

Lemma filter_none (l : list A) : (∀ x, x ∈ l → ¬ P x) → filter P l = [].
Proof.
  induction l as [|x l IH]; intros Hnone; [done|].
  rewrite filter_cons_False by (apply Hnone; left).
  apply IH. intros y Hy. apply Hnone. by right.
Qed.
End filter_facts.

Lemma find_timer_new (s : state) (tm : timer) :
  timers_fresh s → timer_id tm = next_timer s →
  find_timer (next_timer s) (timers s ++ [tm]) = Some tm.
Proof.
  intros Hfresh Hid. unfold find_timer.
  rewrite filter_app, filter_none, (filter_singleton_True _ _ []); try done.
  intros x Hx Heq. apply Hfresh in Hx. lia.
Qed.

Lemma clear_timer_new (s : state) (tm : timer) :
  timers_fresh s → timer_id tm = next_timer s →
  filter (λ x, timer_id x ≠ next_timer s) (timers s ++ [tm]) = timers s.
Proof.
  intros Hfresh Hid.
  rewrite filter_app, filter_all, (filter_singleton_False _ _ []), app_nil_r;
    try done.
  - by intros Hne.
  - intros x Hx. apply Hfresh in Hx. lia.
Qed.

(** ** Handlers that leave the state alone *)

Lemma offer_state (h sdp : string) (s : state) : (on_webrtc_offer h sdp s).1 = s.
Proof. unfold on_webrtc_offer, falsy. destruct (partners s !! h); relay_cases; done. Qed.

Lemma answer_state (h to sdp : string) (s : state) : (on_webrtc_answer h to sdp s).1 = s.
Proof. unfold on_webrtc_answer. by destruct (live s to). Qed.

Lemma ice_candidate_state (h c : string) (s : state) :
  (on_webrtc_ice_candidate h c s).1 = s.
Proof.
  unfold on_webrtc_ice_candidate, falsy. destruct (partners s !! h); relay_cases; done.
Qed.

Lemma typing_state (h : string) (b : bool) (s : state) : (on_typing h b s).1 = s.
Proof. unfold on_typing, falsy. destruct (partners s !! h); relay_cases; done. Qed.

Lemma find_sockets (h : string) (s : state) : sockets (on_find h s).1 = sockets s.
Proof.
  unfold on_find. case_bool_decide; [done|].
  destruct s as [q m k b r t n c]; st. destruct q as [|o rest]; [done|].
  st. unfold pairSockets. by destruct (live _ o).
Qed.

(** ** The invariant is kept by every turn of the event loop *)

Lemma inv_init : inv init.
Proof.
  split; cbn; try done.
  - intros h H. by apply elem_of_nil in H.
  - lia.
  - intros tm H. by apply elem_of_nil in H.
Qed.

Lemma inv_find h s : inv s → sockets s !! h = Some true → inv (on_find h s).1.
Proof.
  intros [Hids Hconn Hkeys Hvals Hq Hshort Hfresh] Hh.
  unfold on_find. case_bool_decide as Hp; [done|].
  assert (partners s !! h = None) as Hnone.
  { destruct (partners s !! h) eqn:E; [|done]. exfalso. eauto. }
  destruct s as [q p k b r t n c]; st.
  destruct q as [|o rest].
  - (* enqueue *)
    cbn [ENABLE_BOT_FALLBACK app]. st.
    split; st; try done.
    + intros x Hx. apply list_elem_of_singleton in Hx as ->. done.
    + unfold timers_fresh in *; st. intros tm [Htm| ->%list_elem_of_singleton]%elem_of_app.
      * apply Hfresh in Htm. lia.
      * cbn. lia.
  - destruct rest; [|cbn in Hshort; lia].
    destruct (Hq o) as [Ho Hon]; [by left|].
    unfold live; st. rewrite Ho.
    unfold pairSockets; st.
    split; st; try done.
    + intros a x Ha. destruct (decide (a = o)) as [->|]; [done|].
      destruct (decide (a = h)) as [->|]; [done|].
      rewrite !lookup_insert_ne in Ha by done. eauto.
    + intros a x Ha. 
      destruct (decide (a = o)) as [->|Hao].
      { rewrite lookup_insert_eq in Ha. simplify_eq. right. split; [done|].
        destruct (decide (o = x)) as [->|]; [by rewrite lookup_insert_eq|].
        rewrite lookup_insert_ne by done. by rewrite lookup_insert_eq. }
      rewrite lookup_insert_ne in Ha by done.
      destruct (decide (a = h)) as [->|Hah].
      { rewrite lookup_insert_eq in Ha. simplify_eq. right. split; [done|].
        by rewrite lookup_insert_eq. }
      rewrite lookup_insert_ne in Ha by done.
      destruct (Hvals _ _ Ha) as [->|[Hx Hxa]]; [by left|]. right. split; [done|].
      rewrite !lookup_insert_ne; [done|congruence|congruence].
    + intros x Hx. by apply elem_of_nil in Hx.
    + cbn. lia.
Qed.


(** Deleting both entries of a pair keeps everybody else's entries. *)
Lemma inv_delete_pair h p s :
  inv s → partners s !! h = Some p → partners s !! p = Some h →
  inv (set_partners (delete h (delete p (partners s))) s).
Proof.
  intros [Hids Hconn Hkeys Hvals Hq Hshort Hfresh] Hh Hp.
  destruct s as [q m k b r t n c]; st.
  split; st; try done.
  - intros a x Ha. apply lookup_delete_Some in Ha as [? Ha].
    apply lookup_delete_Some in Ha as [? Ha]. eauto.
  - intros a x Ha. apply lookup_delete_Some in Ha as [Hah Ha].
    apply lookup_delete_Some in Ha as [Hap Ha].
    destruct (Hvals _ _ Ha) as [->|[Hx Hxa]]; [by left|]. right. split; [done|].
    rewrite !lookup_delete_ne; [done|congruence|congruence].
  - intros x Hx. destruct (Hq x Hx) as [? Hn]. split; [done|].
    rewrite lookup_delete_None. right. rewrite lookup_delete_None. by right.
Qed.

Lemma inv_delete_bot h s :
  inv s → partners s !! h = Some "bot" →
  inv (set_partners (delete h (partners s)) s).
Proof.
  intros [Hids Hconn Hkeys Hvals Hq Hshort Hfresh] Hh.
  destruct s as [q m k b r t n c]; st.
  split; st; try done.
  - intros a x Ha. apply lookup_delete_Some in Ha as [? Ha]. eauto.
  - intros a x Ha. apply lookup_delete_Some in Ha as [Hah Ha].
    destruct (Hvals _ _ Ha) as [->|[Hx Hxa]]; [by left|]. right. split; [done|].
    rewrite lookup_delete_ne; [done|]. intros ->.
    rewrite Hh in Hxa. simplify_eq. destruct (Hids "bot"); [eauto|done].
  - intros x Hx. destruct (Hq x Hx) as [? Hn]. split; [done|].
    rewrite lookup_delete_None. by right.
Qed.

Lemma inv_remove_waiting h s : inv s → inv (remove_waiting h s).
Proof.
  intros [Hids Hconn Hkeys Hvals Hq Hshort Hfresh].
  destruct s as [q m k b r t n c]; st.
  split; st; try done.
  - intros x Hx. apply list_elem_of_filter in Hx as [_ Hx]. eauto.
  - etrans; [apply length_filter|done].
Qed.

(** What the directory can hold for a handle when the invariant holds. *)
Lemma inv_entry_cases h s :
  inv s →
  partners s !! h = None ∨ partners s !! h = Some "bot"
  ∨ ∃ p, partners s !! h = Some p ∧ p ≠ "" ∧ p ≠ "bot"
         ∧ live s p = true ∧ partners s !! p = Some h.
Proof.
  intros Hinv. destruct (partners s !! h) as [p|] eqn:E; [|by left]. right.
  destruct (inv_vals _ Hinv _ _ E) as [->|[Hl Hb]]; [by left|]. right.
  exists p. destruct (inv_ids _ Hinv _ Hl). by rewrite live_iff.
Qed.

Lemma inv_leave h s : inv s → inv (on_leave h s).1.
Proof.
  intros Hinv. unfold on_leave, falsy.
  destruct (inv_entry_cases h s Hinv) as [E|[E|(p & E & ? & ? & Hl & Hb)]]; rewrite E.
  - rewrite bool_decide_eq_false_2 by done. st. by apply inv_remove_waiting.
  - rewrite bool_decide_eq_true_2 by done. st. by apply inv_delete_bot.
  - rewrite bool_decide_eq_false_2 by congruence.
    rewrite bool_decide_eq_false_2 by done. st. rewrite Hl.
    exact (inv_delete_pair h p s Hinv E Hb).
Qed.

Lemma inv_close h s q' m' b' r' t' :
  inv s →
  (∀ x, x ∈ q' → x ∈ waitingQueue s ∧ x ≠ h) →
  length q' ≤ length (waitingQueue s) →
  m' !! h = None →
  (∀ a x, m' !! a = Some x → partners s !! a = Some x) →
  (∀ a x, partners s !! a = Some x → a ≠ h → x ≠ h → m' !! a = Some x) →
  (∀ a, m' !! a ≠ Some h) →
  (∀ tm, tm ∈ t' → tm ∈ timers s) →
  inv (State q' m' (delete h (sockets s)) b' r' t' (next_timer s) (now s)).
Proof.
  intros [Hids Hconn Hkeys Hvals Hq Hshort Hfresh] Hq' Hlen Hh Hsub Hkept Hnoh Ht.
  split; st.
  - intros x [_ Hx]%lookup_delete_Some. eauto.
  - intros x c [_ Hx]%lookup_delete_Some. eauto.
  - intros a x Ha. rewrite lookup_delete_ne by congruence. eauto.
  - intros a x Ha. assert (x ≠ h) by (intros ->; by eapply Hnoh).
    assert (a ≠ h) by congruence.
    destruct (Hvals _ _ (Hsub _ _ Ha)) as [->|[Hx Hxa]]; [by left|]. right.
    rewrite lookup_delete_ne by done. eauto.
  - intros x Hx. destruct (Hq' _ Hx) as [Hxq ?]. destruct (Hq _ Hxq) as [? Hn].
    rewrite lookup_delete_ne by done. split; [done|].
    destruct (m' !! x) eqn:E; [|done]. apply Hsub in E. congruence.
  - lia.
  - intros tm Htm. apply Hfresh. by apply Ht.
Qed.

Lemma inv_disconnect h s :
  inv s → sockets s !! h = Some true →
  inv (on_disconnect h
         (set_rooms (filter (λ r, r.2 ≠ h) (rooms s))
            (set_sockets (delete h (sockets s)) s))).1.
Proof.
  intros Hinv Hh. unfold on_disconnect.
  set (s0 := set_rooms _ _).
  set (s1 := match botTimeout s0 !! h with Some t => clearTimeout t s0 | None => s0 end).
  assert (waitingQueue s1 = waitingQueue s ∧ partners s1 = partners s
          ∧ sockets s1 = delete h (sockets s) ∧ next_timer s1 = next_timer s
          ∧ now s1 = now s ∧ ∀ tm, tm ∈ timers s1 → tm ∈ timers s)
    as (Eq & Ep & Ek & En & Ec & Ht).
  { subst s1 s0. destruct s as [q m k b r t n c]; st.
    destruct (b !! h); st; repeat split; try done.
    intros tm Htm. by apply list_elem_of_filter in Htm as [_ ?]. }
  assert (∀ x, x ∈ filter (λ id, id ≠ h) (waitingQueue s) → x ∈ waitingQueue s ∧ x ≠ h)
    as Hq' by (intros x [? ?]%list_elem_of_filter; done).
  pose proof (length_filter (λ id, id ≠ h) (waitingQueue s)) as Hlen.
  assert (∀ a, partners s !! a = Some h → partners s !! h = Some a) as Hback.
  { intros a Ha. destruct (inv_vals _ Hinv _ _ Ha) as [->|[_ ?]]; [|done].
    destruct (inv_ids _ Hinv _ Hh). done. }
  destruct s1 as [q1 m1 k1 b1 r1 t1 n1 c1]; st. subst q1 m1 k1 n1 c1.
  unfold falsy, live; st.
  destruct (inv_entry_cases h s Hinv) as [E|[E|(p & E & ? & ? & Hl & Hb)]]; rewrite E.
  - st. apply (inv_close h s); try done. intros a Ha. apply Hback in Ha. congruence.
  - rewrite bool_decide_eq_false_2 by done. rewrite bool_decide_eq_true_2 by done. st.
    apply (inv_close h s); try done.
    + apply lookup_delete_eq.
    + intros a x [_ ?]%lookup_delete_Some. done.
    + intros a x Ha ? ?. by rewrite lookup_delete_ne.
    + intros a [_ Ha]%lookup_delete_Some. pose proof (Hback _ Ha) as Ha'.
      rewrite E in Ha'. simplify_eq. apply (inv_keys _ Hinv) in Ha.
      destruct (inv_ids _ Hinv _ Ha). done.
  - rewrite bool_decide_eq_false_2 by done.
    rewrite bool_decide_eq_false_2 by congruence. st.
    apply live_iff in Hl.
    destruct (decide (p = h)) as [->|Hne].
    + rewrite lookup_delete_eq. st. apply (inv_close h s); try done.
      * apply lookup_delete_eq.
      * intros a x [_ ?]%lookup_delete_Some. done.
      * intros a x Ha ? ?. by rewrite lookup_delete_ne.
      * intros a [? Ha]%lookup_delete_Some. apply Hback in Ha. congruence.
    + rewrite lookup_delete_ne by done. rewrite Hl. st. apply (inv_close h s); try done.
      * apply lookup_delete_eq.
      * intros a x [_ [_ ?]%lookup_delete_Some]%lookup_delete_Some. done.
      * intros a x Ha ? ?. rewrite !lookup_delete_ne; [done| |done].
        intros ->. congruence.
      * intros a [? [? Ha]%lookup_delete_Some]%lookup_delete_Some.
        apply Hback in Ha. congruence.
Qed.

Lemma inv_setTimeout d cb s : inv s → inv (setTimeout d cb s).
Proof.
  intros [Hids Hconn Hkeys Hvals Hq Hshort Hfresh].
  destruct s as [q m k b r t n c]; st. split; st; try done.
  unfold timers_fresh in *; st.
  intros tm [Htm| ->%list_elem_of_singleton]%elem_of_app.
  - apply Hfresh in Htm. lia.
  - cbn. lia.
Qed.

Lemma inv_clearTimeout t s : inv s → inv (clearTimeout t s).
Proof.
  intros [Hids Hconn Hkeys Hvals Hq Hshort Hfresh].
  destruct s as [q m k b r ts n c]; st. split; st; try done.
  unfold timers_fresh in *; st.
  intros tm [_ Htm]%list_elem_of_filter. by apply Hfresh.
Qed.

Lemma inv_message h text s : inv s → inv (on_message h text s).1.
Proof.
  intros Hinv. unfold on_message, falsy.
  destruct (inv_entry_cases h s Hinv) as [E|[E|(p & E & ? & ? & Hl & Hb)]]; rewrite E.
  - done.
  - rewrite bool_decide_eq_false_2 by done. rewrite bool_decide_eq_true_2 by done.
    st. by apply inv_setTimeout.
  - rewrite bool_decide_eq_false_2 by done.
    rewrite bool_decide_eq_false_2 by congruence. st. by rewrite Hl.
Qed.

Lemma inv_botFallback_fire h s : inv s → inv (botFallback_fire h s).1.
Proof.
  intros Hinv. unfold botFallback_fire.
  case_bool_decide as Hin; [|done]. case_bool_decide as Hp; [done|]. st.
  apply is_Some_None_eq in Hp.
  destruct Hinv as [Hids Hconn Hkeys Hvals Hq Hshort Hfresh].
  destruct (Hq _ Hin) as [Hl _].
  destruct s as [q m k b r t n c]; st. split; st; try done.
  - intros a x Ha. destruct (decide (a = h)) as [->|]; [done|].
    rewrite lookup_insert_ne in Ha by done. eauto.
  - intros a x Ha. destruct (decide (a = h)) as [->|].
    { rewrite lookup_insert_eq in Ha. left. congruence. }
    rewrite lookup_insert_ne in Ha by done.
    destruct (Hvals _ _ Ha) as [->|[Hx Hxa]]; [by left|]. right. split; [done|].
    rewrite lookup_insert_ne; [done|congruence].
  - intros x [Hne Hx]%list_elem_of_filter. destruct (Hq _ Hx).
    by rewrite lookup_insert_ne.
  - etrans; [apply length_filter|done].
Qed.

Lemma inv_connect h s :
  inv s → sockets s !! h = None → h ≠ "" → h ≠ "bot" →
  inv (set_sockets (<[h := true]> (sockets s)) s).
Proof.
  intros [Hids Hconn Hkeys Hvals Hq Hshort Hfresh] Hnew ? ?.
  assert (∀ x, sockets s !! x = Some true → <[h:=true]> (sockets s) !! x = Some true)
    as Hmono.
  { intros x Hx. rewrite lookup_insert_ne; [done|congruence]. }
  destruct s as [q m k b r t n c]; st. split; st; try done.
  - intros x Hx. destruct (decide (h = x)) as [<-|]; [done|].
    rewrite lookup_insert_ne in Hx by done. eauto.
  - intros x c' Hx. destruct (decide (h = x)) as [<-|].
    + rewrite lookup_insert_eq in Hx. congruence.
    + rewrite lookup_insert_ne in Hx by done. eauto.
  - eauto.
  - intros a x Ha. destruct (Hvals _ _ Ha) as [->|[? ?]]; eauto.
  - intros x Hx. destruct (Hq _ Hx). eauto.
Qed.

Lemma inv_set_now t s : inv s → inv (set_now t s).
Proof. intros []. destruct s. by split. Qed.


(** Every turn of the event loop preserves the invariant. *)
Lemma inv_exec i s s' out : inv s → exec i s = Some (s', out) → inv s'.
Proof.
  intros Hinv Hexec.
  destruct i; cbn [exec] in Hexec;
    repeat match type of Hexec with
    | (if live ?s ?h then _ else _) = _ =>
        destruct (live s h) eqn:Hl; [apply live_iff in Hl|done]
    | (if ?b then _ else _) = _ => destruct b eqn:?; [|done]
    | match ?o with Some _ => _ | None => _ end = _ => destruct o eqn:?; [|done]
    end;
    exec_state Hexec; rewrite <- Hexec.
  - repeat match goal with
      | H : _ && _ = true |- _ => apply andb_prop in H as [? ?]
      | H : negb _ = true |- _ => apply negb_true_iff in H
      | H : bool_decide _ = true |- _ => apply bool_decide_eq_true_1 in H
      | H : bool_decide _ = false |- _ => apply bool_decide_eq_false_1 in H
      end. by apply inv_connect.
  - by apply inv_find.
  - by rewrite offer_state.
  - by rewrite answer_state.
  - by rewrite ice_candidate_state.
  - by apply inv_message.
  - by rewrite typing_state.
  - by apply inv_leave.
  - exact (inv_disconnect h s Hinv Hl).
  - destruct (action t0); cbn [run_callback botReply_fire fst].
    + by apply inv_botFallback_fire, inv_clearTimeout.
    + by apply inv_clearTimeout.
  - by apply inv_set_now.
Qed.

Lemma reachable_inv s : reachable s → inv s.
Proof.
  induction 1 as [|s i s' out _ IH Hexec]; [apply inv_init|].
  by eapply inv_exec.
Qed.

Lemma inv_symmetric s : inv s → symmetric s.
Proof.
  intros Hinv a b Hab Hb. by destruct (inv_vals _ Hinv _ _ Hab) as [?|[_ ?]].
Qed.

Lemma leave_human_deletes_both h p s :
  inv s → partners s !! h = Some p → p ≠ "bot" →
  partners (on_leave h s).1 !! h = None ∧ partners (on_leave h s).1 !! p = None.
Proof.
  intros Hinv E Hp. unfold on_leave, falsy.
  destruct (inv_entry_cases h s Hinv) as [E'|[E'|(p' & E' & ? & ? & Hl & Hb)]];
    [congruence..|].
  assert (p' = p) as -> by congruence. rewrite E.
  rewrite bool_decide_eq_false_2 by congruence.
  rewrite bool_decide_eq_false_2 by done. st. rewrite Hl. st.
  split; [apply lookup_delete_eq|].
  destruct (decide (h = p)) as [->|]; [apply lookup_delete_eq|].
  rewrite lookup_delete_ne by done. apply lookup_delete_eq.
Qed.

Lemma disconnect_human_deletes_both h p s s' out :
  inv s → partners s !! h = Some p → p ≠ "bot" →
  exec (Disconnect h) s = Some (s', out) →
  partners s' !! h = None ∧ partners s' !! p = None.
Proof.
  intros Hinv E Hp Hexec. cbn [exec] in Hexec.
  destruct (live s h) eqn:Hh; [|done].
  exec_state Hexec. subst s'. unfold on_disconnect.
  set (s0 := set_rooms _ _).
  set (s1 := match botTimeout s0 !! h with Some t => clearTimeout t s0 | None => s0 end).
  assert (partners s1 = partners s ∧ sockets s1 = delete h (sockets s)) as [Ep Ek].
  { subst s1 s0. destruct s as [q m k b r t n c]; st. by destruct (b !! h). }
  destruct s1 as [q1 m1 k1 b1 r1 t1 n1 c1]; st. subst m1 k1.
  unfold falsy, live; st.
  destruct (inv_entry_cases h s Hinv) as [E'|[E'|(p' & E' & ? & ? & Hl & Hb)]];
    [congruence..|].
  assert (p' = p) as -> by congruence. rewrite E.
  rewrite bool_decide_eq_false_2 by done.
  rewrite bool_decide_eq_false_2 by congruence. st.
  apply live_iff in Hl.
  destruct (decide (p = h)) as [->|Hne].
  - rewrite lookup_delete_eq. st. split; apply lookup_delete_eq.
  - rewrite lookup_delete_ne by done. rewrite Hl. st.
    split; [apply lookup_delete_eq|].
    rewrite lookup_delete_ne by done. apply lookup_delete_eq.
Qed.


(** ** find *)

(** C9: [find] from a handle that already has a partner-directory entry
    (human or bot) is answered with a status message to that handle and
    leaves the whole server state (queue, directory, timers) unchanged. *)
Theorem find_rejected_when_paired (h : string) (s : state) :
  is_Some (partners s !! h) →
  on_find h s = (s, [(h, Status "Already connected")]).
Proof.
  intros Hp. unfold on_find. by rewrite bool_decide_eq_true_2.
Qed.

Lemma find_rejected_when_paired_witness :
  on_find "A" paired_AB = (paired_AB, [("A", Status "Already connected")])
  ∧ on_find "A" bot_paired_A = (bot_paired_A, [("A", Status "Already connected")]).
Proof.
  split.
  - apply (find_rejected_when_paired "A" paired_AB). vm_compute. by eexists.
  - apply (find_rejected_when_paired "A" bot_paired_A). vm_compute. by eexists.
Defined.


(** Finds from handles that are neither waiting nor paired. *)

Lemma find_settles x s :
  inv s → idle s x →
  settled (on_find x s).1 x
  ∧ (∀ h, h ≠ x → settled s h → settled (on_find x s).1 h)
  ∧ (∀ y, y ≠ x → idle s y → idle (on_find x s).1 y).
Proof.
  intros [Hids Hconn Hkeys Hvals Hq Hshort Hfresh] [Hxq Hxp].
  unfold on_find, settled, idle. rewrite Hxp.
  rewrite bool_decide_eq_false_2 by (by intros [? ?]).
  destruct s as [q m k b r t n c]; st.
  destruct q as [|o rest].
  - cbn [ENABLE_BOT_FALLBACK app]. st. split; [|split].
    + left. split; [by left|done].
    + intros h Hne [[Hin _]|[_ Hp]]; [by apply elem_of_nil in Hin|].
      right. split; [|done]. by intros ->%list_elem_of_singleton.
    + intros y Hne [_ Hy]. split; [|done]. by intros ->%list_elem_of_singleton.
  - destruct rest; [|cbn in Hshort; lia].
    destruct (Hq o) as [Ho Hon]; [by left|].
    assert (o ≠ x) as Hox by (intros ->; apply Hxq; by left).
    unfold live; st. rewrite Ho. unfold pairSockets; st.
    split; [|split].
    + right. split; [by intros ?%elem_of_nil|]. exists o.
      rewrite lookup_insert_ne by done. by rewrite lookup_insert_eq.
    + intros h Hne [[Hin _]|[_ (p & Hp & Hph)]].
      * apply list_elem_of_singleton in Hin as ->. right.
        split; [by intros ?%elem_of_nil|]. exists x. by rewrite lookup_insert_eq.
      * right. split; [by intros ?%elem_of_nil|]. exists p. split; [|done].
        rewrite !lookup_insert_ne; [done|congruence|congruence].
    + intros y Hne [Hyq Hy]. split; [by intros ?%elem_of_nil|].
      rewrite !lookup_insert_ne; [done|congruence|].
      intros ->. apply Hyq. by left.
Qed.

Lemma finds_settle (hs : list string) :
  ∀ (s : state) (P : string → Prop),
    inv s → NoDup hs →
    (∀ h, h ∈ hs → live s h = true ∧ idle s h) →
    (∀ h, P h → (h ∉ hs) ∧ settled s h) →
    ∃ s' out, run (Find <$> hs) s = Some (s', out)
              ∧ ∀ h, h ∈ hs ∨ P h → settled s' h.
Proof.
  induction hs as [|x hs IH]; intros s P Hinv Hnd Hhs HP.
  - exists s, []. split; [done|]. intros h [Hh|Hh]; [by apply elem_of_nil in Hh|].
    by apply HP.
  - apply NoDup_cons in Hnd as [Hx Hnd].
    destruct (Hhs x) as [Hlx Hix]; [by left|].
    destruct (find_settles x s Hinv Hix) as (Hsx & Hkeep & Hidle).
    destruct (IH (on_find x s).1 (λ h, P h ∨ h = x)) as (s' & out & Hrun & Hall).
    + apply inv_find; [done|]. by apply live_iff.
    + done.
    + intros h Hh. destruct (Hhs h) as [Hl Hi]; [by right|]. split.
      * unfold live in *. by rewrite find_sockets.
      * apply Hidle; [|done]. by intros ->.
    + intros h [Hh| ->]; [|done].
      destruct (HP h Hh) as [Hnot Hs]. split.
      * intros Hin. apply Hnot. by right.
      * apply Hkeep; [|done]. intros ->. apply Hnot. by left.
    + exists s', ((on_find x s).2 ++ out). split.
      * cbn [fmap list_fmap run exec]. rewrite Hlx.
        destruct (on_find x s) as [s1 o1]. cbn [fst snd] in *.
        change (list_fmap _ _ Find hs) with (Find <$> hs). by rewrite Hrun.
      * intros h [[->|Hh]%elem_of_cons|Hh]; apply Hall; auto.
Qed.

(** For finds issued one after the other by distinct connected handles that
    were neither waiting nor paired, all of them are accepted, and afterwards
    each of the handles is waiting or paired, not both, and none is paired
    with itself. *)
Theorem finds_from_distinct_handles (hs : list string) (s : state) :
  reachable s → NoDup hs →
  (∀ h, h ∈ hs → live s h = true ∧ idle s h) →
  ∃ s' out, run (Find <$> hs) s = Some (s', out)
    ∧ ∀ h, h ∈ hs →
        ((h ∈ waitingQueue s' ∧ partners s' !! h = None)
         ∨ ((h ∉ waitingQueue s') ∧ is_Some (partners s' !! h)))
        ∧ partners s' !! h ≠ Some h.
Proof.
  intros Hr Hnd Hhs.
  destruct (finds_settle hs s (λ _, False)) as (s' & out & Hrun & Hall);
    [by apply reachable_inv|done|done|done|].
  exists s', out. split; [done|]. intros h Hh.
  destruct (Hall h) as [[? Hn]|[? (p & Hp & Hne)]]; [by left| |].
  - split; [by left|]. by rewrite Hn.
  - split; [right; eauto|]. rewrite Hp. congruence.
Qed.

(** Three connected handles ask in turn: the first two are paired with each
    other and the third waits. *)
Example finds_ABC :
  ∃ s' out,
    run (Find <$> ["A"; "B"; "C"]) (state_after [Connect "A"; Connect "B"; Connect "C"])
    = Some (s', out)
    ∧ ∀ h, h ∈ ["A"; "B"; "C"] →
        ((h ∈ waitingQueue s' ∧ partners s' !! h = None)
         ∨ ((h ∉ waitingQueue s') ∧ is_Some (partners s' !! h)))
        ∧ partners s' !! h ≠ Some h.
Proof.
  apply finds_from_distinct_handles.
  - apply state_after_reachable. vm_compute. by eexists.
  - apply (bool_decide_unpack _). by vm_compute.
  - intros h Hh. repeat (apply elem_of_cons in Hh as [->|Hh]);
      [..|by apply elem_of_nil in Hh];
      (split; [by vm_compute|split; [by intros ?%elem_of_nil|by vm_compute]]).
Qed.

(** C1: the property fails when a waiting handle sends [find] again.  A
    connects and sends [find] twice: the second [find] shifts A itself off
    the queue and [pairSockets] records A as A's own partner; A is told
    twice that it is paired with A. *)
Theorem find_while_waiting_pairs_with_itself :
  partners (state_after find_twice) !! "A" = Some "A"
  ∧ waitingQueue (state_after find_twice) = []
  ∧ (snd <$> run find_twice init)
    = Some [("A", Status "Waiting for a partner...");
            ("A", Paired "A" None); ("A", Paired "A" None)].
Proof. by vm_compute. Qed.

(** ** Directory symmetry *)

(** C2: in every state the server can be in between two turns of the event
    loop, a human directory entry has its back-entry, and every turn (find,
    timer, leave, disconnect, message, signaling) leads to such a state again;
    there, [leave] and [disconnect] of a handle with a human partner delete
    both entries. *)
Theorem directory_symmetry (s : state) :
  reachable s →
  symmetric s
  ∧ (∀ i s' out, exec i s = Some (s', out) → symmetric s')
  ∧ (∀ h p, partners s !! h = Some p → p ≠ "bot" →
     partners (on_leave h s).1 !! h = None
     ∧ partners (on_leave h s).1 !! p = None)
  ∧ (∀ h p s' out, partners s !! h = Some p → p ≠ "bot" →
     exec (Disconnect h) s = Some (s', out) →
     partners s' !! h = None ∧ partners s' !! p = None).
Proof.
  intros Hinv%reachable_inv. split; [by apply inv_symmetric|]. split; [|split].
  - intros i s' out Hexec. eapply inv_symmetric, inv_exec; eauto.
  - intros h p. by apply leave_human_deletes_both.
  - intros h p s' out. by apply disconnect_human_deletes_both.
Qed.

Lemma directory_symmetry_witness :
  symmetric paired_AB
  ∧ partners (on_leave "A" paired_AB).1 !! "B" = None.
Proof.
  destruct (directory_symmetry paired_AB) as (Hsym & _ & Hleave & _).
  - apply state_after_reachable. vm_compute. by eexists.
  - split; [exact Hsym|].
    apply (Hleave "A" "B"); [by vm_compute | done].
Defined.


(** Outside the reachable states the dead-partner branch of [leave] deletes
    one entry only: with B's socket gone while the pair A, B is still
    recorded, A's [leave] keeps B's entry. *)
Remark leave_stale_partner_one_sided :
  symmetric stale_pair_AB
  ∧ partners (on_leave "A" stale_pair_AB).1 !! "B" = Some "A"
  ∧ partners (on_leave "A" stale_pair_AB).1 !! "A" = None.
Proof.
  split; [|by vm_compute].
  intros a b Hab Hb. unfold stale_pair_AB in *; st.
  destruct (decide (a = "A")) as [->|Ha].
  - rewrite lookup_insert_eq in Hab. by simplify_eq.
  - rewrite lookup_insert_ne in Hab by done.
    apply lookup_singleton_Some in Hab as [<- <-]. by vm_compute.
Qed.

(** ** Bot fallback timers *)

(** C3: the property fails for find, leave, find.  A sends [find] at 0 ms,
    [leave] and [find] again at 10000 ms.  [leave] does not clear the first
    timer, so two bot fallback timers of A are pending; the first is due at
    15000 ms and, A being queued again, pairs A with the bot 5000 ms after
    A's latest [find] instead of 15000 ms. *)
Theorem find_leave_find_keeps_stale_timer :
  timers (state_after find_leave_find)
  = [Timer 0 15000 (BotFallback "A"); Timer 1 25000 (BotFallback "A")]
  ∧ waitingQueue (state_after find_leave_find) = ["A"]
  ∧ now (state_after find_leave_find) = 10000%Z
  ∧ now (state_after (find_leave_find ++ [Advance 5000; Fire 0])) = 15000%Z
  ∧ partners (state_after (find_leave_find ++ [Advance 5000; Fire 0])) !! "A"
    = Some "bot"
  ∧ (snd <$> run [Advance 5000; Fire 0] (state_after find_leave_find))
    = Some [("A", Paired "bot" (Some true)); ("A", Message "bot" greeting)].
Proof. by vm_compute. Qed.

(** The 'disconnect' handler does clear the timer remembered on the
    socket: after A's [find] and disconnect no timer is pending. *)
Remark disconnect_clears_timer :
  timers waiting_A = [Timer 0 15000 (BotFallback "A")]
  ∧ timers (state_after [Connect "A"; Find "A"; Disconnect "A"]) = [].
Proof. by vm_compute. Qed.

(** C7: when the bot fallback timer of [h] fires it does nothing unless [h]
    is in the waiting queue and has no directory entry; when both hold it
    removes [h] from the queue, records 'bot' as [h]'s partner, and sends
    [h] 'paired' with [bot: true] followed by the greeting from 'bot'. *)
Theorem botFallback_fire_spec (h : string) (s : state) :
  (¬ (h ∈ waitingQueue s ∧ partners s !! h = None) →
   run_callback (BotFallback h) s = (s, []))
  ∧ (h ∈ waitingQueue s → partners s !! h = None →
     run_callback (BotFallback h) s
     = (State (filter (λ id, id ≠ h) (waitingQueue s)) (<[h := "bot"]> (partners s))
              (sockets s) (botTimeout s) (rooms s) (timers s) (next_timer s) (now s),
        [(h, Paired "bot" (Some true)); (h, Message "bot" greeting)])
     ∧ (h ∉ waitingQueue (fst (run_callback (BotFallback h) s)))
     ∧ partners (fst (run_callback (BotFallback h) s)) !! h = Some "bot").
Proof.
  unfold run_callback, botFallback_fire. split.
  - intros Hno. destruct s as [q p k b r t n c]; simpl in *.
    do 2 case_bool_decide; try done.
    exfalso. apply Hno. split; [done|].
    destruct (p !! h) eqn:E; [|done]. exfalso. eauto.
  - intros Hq Hp.
    rewrite bool_decide_eq_true_2 by done.
    rewrite (bool_decide_eq_false_2 (is_Some _)) by (rewrite Hp; by intros [? ?]).
    cbn [andb negb fst]. split; [done|]. split.
    + cbn. rewrite list_elem_of_filter. by intros [? _].
    + cbn. apply lookup_insert_eq.
Qed.

Lemma botFallback_fire_spec_witness :
  run_callback (BotFallback "A") paired_AB = (paired_AB, [])
  ∧ partners (fst (run_callback (BotFallback "A") waiting_A)) !! "A" = Some "bot".
Proof.
  split.
  - apply (botFallback_fire_spec "A" paired_AB).
    intros [Hq _]. vm_compute in Hq. by apply elem_of_nil in Hq.
  - apply (botFallback_fire_spec "A" waiting_A).
    + vm_compute. by left.
    + by vm_compute.
Defined.


(** ** Signaling relay *)

(** C4, counterexample: A is connected and unpaired and answers to B, which
    is not connected; the server sends nothing at all. *)
Lemma answer_rejected_with_status_fails : ¬ answer_rejected_with_status.
Proof.
  intros Hclaim.
  destruct (Hclaim "A" "B" "sdp" (state_after [Connect "A"])) as [[msg Hin] _].
  - left. by vm_compute.
  - vm_compute in Hin. by apply elem_of_nil in Hin.
Qed.

(** C4, amended: a [webrtc-answer] never changes the server state; when the
    addressed target is not live it is dropped without any message (none to
    [h] either); when the target is live it is forwarded to it, whether or
    not [h] has a directory entry. *)
Theorem answer_no_session_dropped_silently (h to sdp : string) (s : state) :
  (on_webrtc_answer h to sdp s).1 = s
  ∧ (live s to = false → (on_webrtc_answer h to sdp s).2 = [])
  ∧ (live s to = true →
     (on_webrtc_answer h to sdp s).2 = [(to, WebrtcAnswer h sdp)]).
Proof.
  split; [apply answer_state|].
  unfold on_webrtc_answer. split; intros ->; done.
Qed.

Lemma answer_no_session_dropped_silently_witness :
  (on_webrtc_answer "A" "B" "sdp" waiting_A).2 = []
  ∧ (on_webrtc_answer "A" "B" "sdp" paired_AB).2 = [("B", WebrtcAnswer "A" "sdp")].
Proof.
  split.
  - apply (answer_no_session_dropped_silently "A" "B" "sdp" waiting_A).
    by vm_compute.
  - apply (answer_no_session_dropped_silently "A" "B" "sdp" paired_AB).
    by vm_compute.
Defined.



(** X18: for every state, reachable or not, an offer from [h] never
    changes the state.  With no directory entry or a bot
    entry it is dropped and nothing is sent.  With an entry [p] whose socket
    is not live, [h] gets the status message 'Partner disconnected (during
    offer).' and nothing is forwarded.  With an entry [p] whose socket is
    live, the offer goes to [p] with [from = h]. *)
Theorem offer_routing (h sdp : string) (s : state) :
  (on_webrtc_offer h sdp s).1 = s
  ∧ (partners s !! h = None ∨ partners s !! h = Some "bot" →
     (on_webrtc_offer h sdp s).2 = [])
  ∧ (∀ p, partners s !! h = Some p → p ≠ "" → p ≠ "bot" → live s p = false →
     (on_webrtc_offer h sdp s).2
     = [(h, Status "Partner disconnected (during offer).")])
  ∧ (∀ p, partners s !! h = Some p → p ≠ "" → p ≠ "bot" → live s p = true →
     (on_webrtc_offer h sdp s).2 = [(p, WebrtcOffer h sdp)]).
Proof.
  split; [apply offer_state|].
  unfold on_webrtc_offer, falsy.
  repeat split.
  - intros [-> | ->]; relay_cases; done.
  - intros p -> ? ? Hl. relay_cases; congruence.
  - intros p -> ? ? Hl. relay_cases; congruence.
Qed.

Lemma offer_routing_witness :
  (on_webrtc_offer "A" "sdp" waiting_A).2 = []
  ∧ (on_webrtc_offer "A" "sdp" bot_paired_A).2 = []
  ∧ (on_webrtc_offer "A" "sdp" stale_AB).2
    = [("A", Status "Partner disconnected (during offer).")]
  ∧ (on_webrtc_offer "A" "sdp" paired_AB).2 = [("B", WebrtcOffer "A" "sdp")].
Proof.
  split; [|split; [|split]].
  - apply (offer_routing "A" "sdp" waiting_A). left. by vm_compute.
  - apply (offer_routing "A" "sdp" bot_paired_A). right. by vm_compute.
  - destruct (offer_routing "A" "sdp" stale_AB) as (_ & _ & Hdead & _).
    apply (Hdead "B"); [by vm_compute | done | done | by vm_compute].
  - destruct (offer_routing "A" "sdp" paired_AB) as (_ & _ & _ & Hlive).
    apply (Hlive "B"); [by vm_compute | done | done | by vm_compute].
Defined.

(** C6: an answer from [h] addressed to a live target [t] is delivered to
    [t] with [from = h] and the submitted sdp, for every state: neither
    [h]'s directory entry nor [t]'s is consulted. *)
Theorem answer_forwarded_to_any_live_target (h t sdp : string) (s : state) :
  live s t = true →
  on_webrtc_answer h t sdp s = (s, [(t, WebrtcAnswer h sdp)]).
Proof. intros Hl. unfold on_webrtc_answer. by rewrite Hl. Qed.

Lemma answer_forwarded_to_any_live_target_witness :
  partners strangers_AB !! "A" = None
  ∧ on_webrtc_answer "A" "B" "sdp" strangers_AB
    = (strangers_AB, [("B", WebrtcAnswer "A" "sdp")]).
Proof.
  split; [by vm_compute|].
  apply (answer_forwarded_to_any_live_target "A" "B" "sdp" strangers_AB).
  by vm_compute.
Defined.

(** C10: every signaling event the relay sends carries the sender's
    handle as [from] and the submitted [sdp] (or [candidate]) unchanged. *)
Theorem signaling_payload_forwarded_unmodified (h x : string) (s : state) :
  (∀ t f y, (t, WebrtcOffer f y) ∈ (on_webrtc_offer h x s).2 → f = h ∧ y = x)
  ∧ (∀ to t f y,
       (t, WebrtcAnswer f y) ∈ (on_webrtc_answer h to x s).2 → f = h ∧ y = x)
  ∧ (∀ t f y,
       (t, WebrtcIceCandidate f y) ∈ (on_webrtc_ice_candidate h x s).2 →
       f = h ∧ y = x).
Proof.
  unfold on_webrtc_offer, on_webrtc_answer, on_webrtc_ice_candidate, falsy.
  split; [|split]; intros; destruct (partners s !! h);
    repeat match goal with H : _ ∈ _ |- _ => revert H end;
    relay_cases; intros Hin;
    (by apply elem_of_nil in Hin)
    || (apply list_elem_of_singleton in Hin; by simplify_eq).
Qed.

Lemma signaling_payload_forwarded_unmodified_witness :
  (on_webrtc_offer "A" "v=0" paired_AB).2 = [("B", WebrtcOffer "A" "v=0")]
  ∧ (on_webrtc_ice_candidate "A" "v=0" paired_AB).2
    = [("B", WebrtcIceCandidate "A" "v=0")]
  ∧ ("A" = "A" ∧ "v=0" = "v=0").
Proof.
  split; [by vm_compute|]. split; [by vm_compute|].
  destruct (signaling_payload_forwarded_unmodified "A" "v=0" paired_AB)
    as (Hoffer & _ & _).
  apply (Hoffer "B").
  assert (E : (on_webrtc_offer "A" "v=0" paired_AB).2
              = [("B", WebrtcOffer "A" "v=0")]) by (by vm_compute).
  rewrite E. apply list_elem_of_singleton. reflexivity.
Defined.


(** ** Chat messages *)

(** C8: a message from [h] while [h]'s entry is 'bot' sends nothing at once
    (no echo to [h], nothing to anyone else) and schedules one timer, due
    700 ms later.  That timer cannot fire earlier; when it fires, the only
    event sent is one message to [h], from 'bot', whose text is the
    submitted text between the fixed prefix and suffix of the template.
    Queue and directory are the same before and after. *)
Theorem bot_message_reply (h text : string) (s : state) :
  partners s !! h = Some "bot" →
  timers_fresh s →
  ∃ s1,
    on_message h text s = (s1, [])
    ∧ waitingQueue s1 = waitingQueue s ∧ partners s1 = partners s
    ∧ timers s1 = timers s ++ [Timer (next_timer s) (now s + 700) (BotReply h text)]
    ∧ (∀ d, (0 ≤ d < 700)%Z → run [Advance d; Fire (next_timer s)] s1 = None)
    ∧ (∀ d, (700 ≤ d)%Z →
       run [Advance d; Fire (next_timer s)] s1
       = Some (State (waitingQueue s) (partners s) (sockets s) (botTimeout s)
                     (rooms s) (timers s) (S (next_timer s)) (now s + d),
               [(h, Message "bot" (bot_reply text))]))
    ∧ bot_reply text = ("Bot: I heard " +:+ dquote) +:+ text +:+ (dquote +:+ ".").
Proof.
  intros Hbot Hfresh. eexists. split.
  { unfold on_message, falsy. rewrite Hbot.
    rewrite (bool_decide_eq_false_2 ("bot" = "")) by done.
    by rewrite bool_decide_eq_true_2. }
  split; [done|]. split; [done|]. split; [done|].
  split; [|split].
  - intros d Hd. cbn [run exec].
    rewrite bool_decide_eq_true_2 by lia.
    cbn [set_now setTimeout timers now waitingQueue partners sockets
         botTimeout rooms next_timer].
    rewrite find_timer_new by done.
    cbn [due]. by rewrite bool_decide_eq_false_2 by lia.
  - intros d Hd. cbn [run exec].
    rewrite bool_decide_eq_true_2 by lia.
    cbn [set_now setTimeout timers now waitingQueue partners sockets
         botTimeout rooms next_timer].
    rewrite find_timer_new by done.
    cbn [due action]. rewrite bool_decide_eq_true_2 by lia.
    unfold clearTimeout, set_timers.
    cbn [run_callback botReply_fire timers now waitingQueue partners sockets
         botTimeout rooms next_timer].
    unfold set_now, setTimeout.
    cbn [timers now waitingQueue partners sockets botTimeout rooms next_timer].
    by rewrite clear_timer_new.
  - reflexivity.
Qed.

Lemma bot_message_reply_witness :
  ∃ s1,
    on_message "A" "hello" bot_paired_A = (s1, [])
    ∧ run [Advance 699; Fire 1] s1 = None
    ∧ (snd <$> run [Advance 700; Fire 1] s1)
      = Some [("A", Message "bot" (bot_reply "hello"))].
Proof.
  destruct (bot_message_reply "A" "hello" bot_paired_A)
    as (s1 & Hmsg & _ & _ & _ & Hearly & Hdue & _).
  - by vm_compute.
  - intros tm Htm. vm_compute in Htm. by apply elem_of_nil in Htm.
  - exists s1. split; [exact Hmsg|]. split.
    + apply (Hearly 699%Z). lia.
    + change (next_timer bot_paired_A) with 1 in Hdue.
      rewrite (Hdue 700%Z) by lia. reflexivity.
Defined.

(** * Further properties of the handlers *)

(** ** Reachable states: queue and directory *)

(** X1: between two turns of the event loop the waiting queue holds at most
    one handle: [find] pushes only onto an empty queue. *)
Theorem reachable_queue_at_most_one (s : state) :
  reachable s → length (waitingQueue s) ≤ 1.
Proof. intros Hinv%reachable_inv. apply (inv_short _ Hinv). Qed.

Lemma reachable_queue_at_most_one_witness : length (waitingQueue waiting_A) ≤ 1.
Proof.
  apply (reachable_queue_at_most_one waiting_A).
  apply state_after_reachable. vm_compute. by eexists.
Defined.

(** X2: in a reachable state a waiting handle is connected and has no
    directory entry, and a handle with a directory entry is connected and
    not waiting. *)
Theorem reachable_waiting_or_paired_live (s : state) (h : string) :
  reachable s →
  (h ∈ waitingQueue s → live s h = true ∧ partners s !! h = None)
  ∧ (is_Some (partners s !! h) → live s h = true ∧ (h ∉ waitingQueue s)).
Proof.
  intros Hinv%reachable_inv. split.
  - intros Hq. destruct (inv_queue _ Hinv _ Hq). by rewrite live_iff.
  - intros [p Hp]. split.
    + rewrite live_iff. by eapply inv_keys.
    + intros Hq. destruct (inv_queue _ Hinv _ Hq). congruence.
Qed.

Lemma reachable_waiting_or_paired_live_witness :
  (live waiting_A "A" = true ∧ partners waiting_A !! "A" = None)
  ∧ (live paired_AB "B" = true ∧ ("B" ∉ waitingQueue paired_AB)).
Proof.
  split.
  - apply (reachable_waiting_or_paired_live waiting_A "A").
    + apply state_after_reachable. vm_compute. by eexists.
    + vm_compute. by left.
  - apply (reachable_waiting_or_paired_live paired_AB "B").
    + apply state_after_reachable. vm_compute. by eexists.
    + vm_compute. by eexists.
Defined.

Lemma disconnect_sockets (h : string) (s : state) :
  sockets (on_disconnect h s).1 = sockets s.
Proof.
  unfold on_disconnect.
  set (s1 := match botTimeout s !! h with Some t => clearTimeout t s | None => s end).
  assert (sockets s1 = sockets s) as <-.
  { subst s1. by destruct (botTimeout s !! h). }
  destruct s1 as [q m k b r t n c]; st.
  repeat first [case_bool_decide | destruct (falsy _) | destruct (live _ _) ]; done.
Qed.

(** X3: after the disconnect of [h] from a reachable state, [h] is not
    registered, not waiting, has no directory entry, and is nobody's
    partner. *)
Theorem disconnect_forgets_handle (s s' : state) (h : string) (out : list emission) :
  reachable s → exec (Disconnect h) s = Some (s', out) →
  live s' h = false ∧ (h ∉ waitingQueue s') ∧ partners s' !! h = None
  ∧ ∀ a, partners s' !! a ≠ Some h.
Proof.
  intros Hr Hexec.
  assert (inv s') as Hinv' by (eapply reachable_inv, reach_step; eauto).
  pose proof (reachable_inv _ Hr) as Hinv.
  cbn [exec] in Hexec. destruct (live s h) eqn:Hl; [|done].
  apply live_iff in Hl. destruct (inv_ids _ Hinv _ Hl) as [_ Hbot].
  exec_state Hexec.
  assert (sockets s' !! h = None) as Hgone.
  { rewrite <- Hexec, disconnect_sockets. st. apply lookup_delete_eq. }
  split; [|split; [|split]].
  - unfold live. by rewrite Hgone.
  - intros Hq. destruct (inv_queue _ Hinv' _ Hq). congruence.
  - destruct (partners s' !! h) eqn:E; [|done].
    apply (inv_keys _ Hinv') in E. congruence.
  - intros a Ha. destruct (inv_vals _ Hinv' _ _ Ha) as [?|[? _]]; congruence.
Qed.

Lemma disconnect_forgets_handle_witness :
  live (state_after [Connect "A"; Connect "B"; Find "A"; Find "B"; Disconnect "A"])
       "A" = false
  ∧ partners (state_after [Connect "A"; Connect "B"; Find "A"; Find "B";
                           Disconnect "A"]) !! "B" ≠ Some "A".
Proof.
  destruct (disconnect_forgets_handle paired_AB
              (state_after [Connect "A"; Connect "B"; Find "A"; Find "B";
                            Disconnect "A"]) "A"
              [("B", Status "Partner disconnected."); ("B", PartnerLeft)])
    as (Hdead & _ & _ & Hnobody).
  - apply state_after_reachable. vm_compute. by eexists.
  - by vm_compute.
  - split; [exact Hdead | exact (Hnobody "B")].
Defined.

(** ** find *)

(** X4: from a reachable state [find] never sends 'retry': the candidate
    shifted off the queue is always connected. *)
Theorem find_never_asks_to_retry (s s' : state) (h : string) (out : list emission) :
  reachable s → exec (Find h) s = Some (s', out) →
  ∀ t, (t, Retry) ∉ out.
Proof.
  intros Hinv%reachable_inv Hexec t Hin.
  cbn [exec] in Hexec. destruct (live s h); [|done].
  apply (inj Some) in Hexec. apply (f_equal snd) in Hexec. cbn [snd] in Hexec.
  subst out. revert Hin. unfold on_find.
  case_bool_decide; [by intros ?%list_elem_of_singleton|].
  destruct (waitingQueue s) as [|o rest] eqn:Eq.
  - by intros ?%list_elem_of_singleton.
  - destruct (inv_queue _ Hinv o) as [Ho _]; [rewrite Eq; by left|].
    apply live_iff in Ho. unfold live in *. st. rewrite Ho.
    unfold pairSockets. cbn [snd].
    intros [?|[?|?%elem_of_nil]%elem_of_cons]%elem_of_cons; done.
Qed.

Lemma find_never_asks_to_retry_witness :
  (on_find "B" (state_after [Connect "B"; Connect "A"; Find "A"])).2
  = [("B", Paired "A" None); ("A", Paired "B" None)]
  ∧ (("B", Retry) ∉ (on_find "B" (state_after [Connect "B"; Connect "A"; Find "A"])).2).
Proof.
  split; [by vm_compute|].
  apply (find_never_asks_to_retry
           (state_after [Connect "B"; Connect "A"; Find "A"])
           (on_find "B" (state_after [Connect "B"; Connect "A"; Find "A"])).1 "B").
  - apply state_after_reachable. vm_compute. by eexists.
  - by vm_compute.
Defined.

(** X5: with an empty queue, [find] from [a] and then from [b] (distinct,
    connected, without entries) makes [a] wait and then pairs the two: each
    is told the other's id, the queue is empty again, the two entries point
    at each other, nobody else's entry changes, and the bot timer scheduled
    for [a] stays pending. *)
Theorem two_finds_pair_each_other (s : state) (a b : string) :
  waitingQueue s = [] →
  live s a = true → live s b = true → a ≠ b →
  partners s !! a = None → partners s !! b = None →
  ∃ s', run [Find a; Find b] s
        = Some (s', [(a, Status "Waiting for a partner...");
                     (b, Paired a None); (a, Paired b None)])
        ∧ waitingQueue s' = []
        ∧ partners s' !! a = Some b ∧ partners s' !! b = Some a
        ∧ (∀ c, c ≠ a → c ≠ b → partners s' !! c = partners s !! c)
        ∧ timers s' = timers s ++ [Timer (next_timer s) (now s + 15000) (BotFallback a)].
Proof.
  intros Hq Ha Hb Hab Hpa Hpb.
  eexists. split.
  - cbn [run exec]. rewrite Ha. unfold on_find at 1.
    rewrite Hpa, Hq. rewrite bool_decide_eq_false_2 by (by intros [? ?]).
    cbn [ENABLE_BOT_FALLBACK app]. unfold live in *. st. rewrite Hb.
    unfold on_find. st. rewrite Hpb.
    rewrite bool_decide_eq_false_2 by (by intros [? ?]).
    unfold live. st. rewrite Ha. unfold pairSockets. st. reflexivity.
  - st. split; [done|]. split; [|split].
    + apply lookup_insert_eq.
    + rewrite lookup_insert_ne by done. apply lookup_insert_eq.
    + split; [|done]. intros c ? ?. by rewrite !lookup_insert_ne by congruence.
Qed.

Lemma two_finds_pair_each_other_witness :
  ∃ s', run [Find "A"; Find "B"] strangers_AB
        = Some (s', [("A", Status "Waiting for a partner...");
                     ("B", Paired "A" None); ("A", Paired "B" None)])
        ∧ waitingQueue s' = []
        ∧ partners s' !! "A" = Some "B" ∧ partners s' !! "B" = Some "A"
        ∧ (∀ c, c ≠ "A" → c ≠ "B" → partners s' !! c = partners strangers_AB !! c)
        ∧ timers s' = timers strangers_AB
                      ++ [Timer (next_timer strangers_AB) (now strangers_AB + 15000)
                                (BotFallback "A")].
Proof.
  apply (two_finds_pair_each_other strangers_AB "A" "B"); by vm_compute.
Defined.

(** X6: [find] from an unpaired handle on an empty queue queues it and
    schedules its bot fallback; the timer cannot fire before 15000 ms, and
    when it fires with nothing in between the handle leaves the queue, gets
    'bot' as partner, and is sent 'paired' and the greeting. *)
Theorem bot_fallback_after_15s (s : state) (h : string) :
  partners s !! h = None → waitingQueue s = [] → timers_fresh s →
  ∃ s1,
    on_find h s = (s1, [(h, Status "Waiting for a partner...")])
    ∧ waitingQueue s1 = [h] ∧ partners s1 = partners s
    ∧ (∀ d, (0 ≤ d < 15000)%Z → run [Advance d; Fire (next_timer s)] s1 = None)
    ∧ (∀ d, (15000 ≤ d)%Z →
       ∃ s2, run [Advance d; Fire (next_timer s)] s1
             = Some (s2, [(h, Paired "bot" (Some true)); (h, Message "bot" greeting)])
             ∧ waitingQueue s2 = [] ∧ partners s2 = <[h := "bot"]> (partners s)
             ∧ timers s2 = timers s).
Proof.
  intros Hp Hq Hfresh. eexists. split.
  { unfold on_find. rewrite Hp, Hq.
    rewrite bool_decide_eq_false_2 by (by intros [? ?]).
    cbn [ENABLE_BOT_FALLBACK app]. reflexivity. }
  st. split; [done|]. split; [done|]. split.
  - intros d Hd. cbn [run exec].
    rewrite bool_decide_eq_true_2 by lia. st.
    rewrite find_timer_new by done.
    cbn [due]. by rewrite bool_decide_eq_false_2 by lia.
  - intros d Hd. eexists. split.
    + cbn [run exec].
      rewrite bool_decide_eq_true_2 by lia. st.
      rewrite find_timer_new by done.
      cbn [due action]. rewrite bool_decide_eq_true_2 by lia.
      unfold set_timers. st.
      cbn [run_callback]. unfold botFallback_fire. st.
      rewrite bool_decide_eq_true_2 by (by left).
      rewrite Hp. rewrite bool_decide_eq_false_2 by (by intros [? ?]).
      st. reflexivity.
    + st. split; [|split; [done|]].
      * rewrite filter_cons_False by (by intros ?). done.
      * by apply clear_timer_new.
Qed.

Lemma bot_fallback_after_15s_witness :
  ∃ s1,
    on_find "A" strangers_AB = (s1, [("A", Status "Waiting for a partner...")])
    ∧ run [Advance 14999; Fire 0] s1 = None
    ∧ (snd <$> run [Advance 15000; Fire 0] s1)
      = Some [("A", Paired "bot" (Some true)); ("A", Message "bot" greeting)].
Proof.
  destruct (bot_fallback_after_15s strangers_AB "A")
    as (s1 & Hfind & _ & _ & Hearly & Hdue).
  - by vm_compute.
  - by vm_compute.
  - intros tm Htm. vm_compute in Htm. by apply elem_of_nil in Htm.
  - exists s1. split; [exact Hfind|]. split.
    + apply (Hearly 14999%Z). lia.
    + destruct (Hdue 15000%Z) as (s2 & Hrun & _); [lia|].
      change (next_timer strangers_AB) with 0 in Hrun. by rewrite Hrun.
Defined.

(** ** Chat relay *)

(** X7: a chat message without a directory entry is answered with 'No
    partner to send to.' and changes nothing; with a live human partner it
    goes to the partner as 'stranger' and back to the sender as 'you', and
    changes nothing; with a human partner whose socket is gone the sender
    gets 'Partner disconnected.' and both entries of the pair are deleted,
    all other entries, the queue and the timers staying as they were. *)
Theorem message_routing (h text : string) (s : state) :
  (partners s !! h = None →
   on_message h text s = (s, [(h, Status "No partner to send to.")]))
  ∧ (∀ p, partners s !! h = Some p → p ≠ "" → p ≠ "bot" → live s p = true →
     on_message h text s
     = (s, [(p, Message "stranger" text); (h, Message "you" text)]))
  ∧ (∀ p, partners s !! h = Some p → p ≠ "" → p ≠ "bot" → live s p = false →
     (on_message h text s).2 = [(h, Status "Partner disconnected.")]
     ∧ partners (on_message h text s).1 !! h = None
     ∧ partners (on_message h text s).1 !! p = None
     ∧ (∀ c, c ≠ h → c ≠ p →
        partners (on_message h text s).1 !! c = partners s !! c)
     ∧ waitingQueue (on_message h text s).1 = waitingQueue s
     ∧ timers (on_message h text s).1 = timers s).
Proof.
  unfold on_message, cleanupPartner, falsy. split; [|split].
  - by intros ->.
  - intros p -> ? ? Hl. relay_cases; congruence.
  - intros p -> ? ? Hl. relay_cases; try congruence. st.
    split; [done|]. split; [apply lookup_delete_eq|]. split; [|split; [|done]].
    + destruct (decide (h = p)) as [->|]; [apply lookup_delete_eq|].
      rewrite lookup_delete_ne by done. apply lookup_delete_eq.
    + intros c ? ?. by rewrite !lookup_delete_ne by congruence.
Qed.

Lemma message_routing_witness :
  on_message "A" "hi" strangers_AB
  = (strangers_AB, [("A", Status "No partner to send to.")])
  ∧ on_message "A" "hi" paired_AB
    = (paired_AB, [("B", Message "stranger" "hi"); ("A", Message "you" "hi")])
  ∧ partners (on_message "A" "hi" stale_pair_AB).1 !! "B" = None.
Proof.
  split; [|split].
  - apply (message_routing "A" "hi" strangers_AB). by vm_compute.
  - destruct (message_routing "A" "hi" paired_AB) as (_ & Hlive & _).
    apply (Hlive "B"); [by vm_compute | done | done | by vm_compute].
  - destruct (message_routing "A" "hi" stale_pair_AB) as (_ & _ & Hdead).
    apply (Hdead "B"); [by vm_compute | done | done | by vm_compute].
Defined.

(** X8: a typing event never changes the state; it is forwarded with its
    flag to a live human partner and dropped without any message when the
    sender has no entry, a bot entry, or a partner whose socket is gone. *)
Theorem typing_routing (h : string) (isTyping : bool) (s : state) :
  (on_typing h isTyping s).1 = s
  ∧ (∀ p, partners s !! h = Some p → p ≠ "" → p ≠ "bot" → live s p = true →
     (on_typing h isTyping s).2 = [(p, Typing isTyping)])
  ∧ (partners s !! h = None ∨ partners s !! h = Some "bot"
     ∨ (∃ p, partners s !! h = Some p ∧ live s p = false) →
     (on_typing h isTyping s).2 = []).
Proof.
  split; [apply typing_state|]. unfold on_typing, falsy. split.
  - intros p -> ? ? Hl. relay_cases; congruence.
  - intros [-> | [-> | (p & -> & Hl)]]; relay_cases; congruence.
Qed.

Lemma typing_routing_witness :
  (on_typing "A" true paired_AB).2 = [("B", Typing true)]
  ∧ (on_typing "A" true bot_paired_A).2 = []
  ∧ (on_typing "A" true stale_AB).2 = [].
Proof.
  split; [|split].
  - destruct (typing_routing "A" true paired_AB) as (_ & Hlive & _).
    apply (Hlive "B"); [by vm_compute | done | done | by vm_compute].
  - apply (typing_routing "A" true bot_paired_A). right. left. by vm_compute.
  - apply (typing_routing "A" true stale_AB). right. right. exists "B". by vm_compute.
Defined.

(** X9: an ICE candidate never changes the state; it is forwarded with
    [from = h] to a live human partner, and dropped without any message
    otherwise, also when the partner's socket is gone (where an offer is
    answered with a status). *)
Theorem ice_candidate_routing (h candidate : string) (s : state) :
  (on_webrtc_ice_candidate h candidate s).1 = s
  ∧ (∀ p, partners s !! h = Some p → p ≠ "" → p ≠ "bot" → live s p = true →
     (on_webrtc_ice_candidate h candidate s).2
     = [(p, WebrtcIceCandidate h candidate)])
  ∧ (partners s !! h = None ∨ partners s !! h = Some "bot"
     ∨ (∃ p, partners s !! h = Some p ∧ live s p = false) →
     (on_webrtc_ice_candidate h candidate s).2 = []).
Proof.
  split; [apply ice_candidate_state|]. unfold on_webrtc_ice_candidate, falsy. split.
  - intros p -> ? ? Hl. relay_cases; congruence.
  - intros [-> | [-> | (p & -> & Hl)]]; relay_cases; congruence.
Qed.

Lemma ice_candidate_routing_witness :
  (on_webrtc_ice_candidate "A" "c" paired_AB).2 = [("B", WebrtcIceCandidate "A" "c")]
  ∧ (on_webrtc_ice_candidate "A" "c" stale_AB).2 = [].
Proof.
  split.
  - destruct (ice_candidate_routing "A" "c" paired_AB) as (_ & Hlive & _).
    apply (Hlive "B"); [by vm_compute | done | done | by vm_compute].
  - apply (ice_candidate_routing "A" "c" stale_AB). right. right. exists "B".
    by vm_compute.
Defined.

(** X10: whatever the offer, ICE candidate, typing and message handlers
    send for [h] goes to [h] itself or to the handle recorded as [h]'s
    partner, never to a third socket. *)
Theorem relay_confined_to_partner (h x : string) (b : bool) (s : state) :
  ∀ t e,
    (t, e) ∈ (on_webrtc_offer h x s).2 ++ (on_webrtc_ice_candidate h x s).2
             ++ (on_typing h b s).2 ++ (on_message h x s).2 →
    t = h ∨ partners s !! h = Some t.
Proof.
  intros t e. unfold on_webrtc_offer, on_webrtc_ice_candidate, on_typing,
    on_message, falsy.
  destruct (partners s !! h) as [p|]; relay_cases; cbn [app];
    rewrite ?elem_of_cons, ?elem_of_nil; intros Hin;
    repeat match goal with
    | H : _ ∨ _ |- _ => destruct H
    | H : False |- _ => destruct H
    | H : (_, _) = (_, _) |- _ => injection H as -> ->
    end; auto.
Qed.

Lemma relay_confined_to_partner_witness :
  "B" = "A" ∨ partners paired_AB !! "A" = Some "B".
Proof.
  apply (relay_confined_to_partner "A" "x" true paired_AB "B" (WebrtcOffer "A" "x")).
  vm_compute. by left.
Defined.

(** ** leave and disconnect *)

(** X11: [leave] never touches the pending timers or the remembered timer
    handles, and [find] never removes a pending timer. *)
Theorem leave_and_find_keep_timers (h : string) (s : state) :
  timers (on_leave h s).1 = timers s
  ∧ botTimeout (on_leave h s).1 = botTimeout s
  ∧ ∀ tm, tm ∈ timers s → tm ∈ timers (on_find h s).1.
Proof.
  split; [|split].
  - unfold on_leave, falsy.
    destruct (partners s !! h); relay_cases; done.
  - unfold on_leave, falsy.
    destruct (partners s !! h); relay_cases; done.
  - intros tm Htm. unfold on_find. case_bool_decide; [done|].
    destruct (waitingQueue s) as [|o rest].
    + cbn [ENABLE_BOT_FALLBACK]. st. apply elem_of_app. by left.
    + unfold pairSockets. by destruct (live _ o).
Qed.

Lemma inv_leave_idle (h : string) (s : state) : inv s → idle (on_leave h s).1 h.
Proof.
  intros Hinv. unfold idle, on_leave, falsy.
  destruct (inv_entry_cases h s Hinv) as [E|[E|(p & E & ? & ? & Hl & Hb)]]; rewrite E.
  - rewrite bool_decide_eq_false_2 by done. st. split; [|done].
    rewrite list_elem_of_filter. by intros [? _].
  - rewrite bool_decide_eq_true_2 by done. st. split; [|apply lookup_delete_eq].
    intros Hq. destruct (inv_queue _ Hinv _ Hq). congruence.
  - rewrite bool_decide_eq_false_2 by congruence.
    rewrite bool_decide_eq_false_2 by done. st. rewrite Hl. st.
    split; [|apply lookup_delete_eq].
    intros Hq. destruct (inv_queue _ Hinv _ Hq). congruence.
Qed.

(** X12: after [leave] from a reachable state the handle is neither
    waiting nor paired. *)
Theorem leave_makes_idle (h : string) (s : state) :
  reachable s → idle (on_leave h s).1 h.
Proof. intros Hr. by apply inv_leave_idle, reachable_inv. Qed.

Lemma leave_makes_idle_witness :
  idle (on_leave "A" waiting_A).1 "A" ∧ idle (on_leave "A" paired_AB).1 "A".
Proof.
  split.
  - apply (leave_makes_idle "A" waiting_A).
    apply state_after_reachable. vm_compute. by eexists.
  - apply (leave_makes_idle "A" paired_AB).
    apply state_after_reachable. vm_compute. by eexists.
Defined.

(** X13: in a reachable state where [h] has a human partner [p], [leave]
    sends [p] the status 'Partner left the chat.' and 'partner-left' and
    [h] the status 'You left the chat.'; the disconnect of [h] sends [p] the
    status 'Partner disconnected.' and 'partner-left'. *)
Theorem partner_notified_of_departure (s : state) (h p : string) :
  reachable s → partners s !! h = Some p → p ≠ "bot" →
  (on_leave h s).2
  = [(p, Status "Partner left the chat."); (p, PartnerLeft);
     (h, Status "You left the chat.")]
  ∧ (p ≠ h →
     snd <$> exec (Disconnect h) s
     = Some [(p, Status "Partner disconnected."); (p, PartnerLeft)]).
Proof.
  intros Hinv%reachable_inv E Hp.
  destruct (inv_entry_cases h s Hinv) as [E'|[E'|(p' & E' & ? & ? & Hl & Hb)]];
    [congruence..|].
  assert (p' = p) as -> by congruence. split.
  - unfold on_leave, falsy. rewrite E.
    rewrite bool_decide_eq_false_2 by congruence.
    rewrite bool_decide_eq_false_2 by done. st. by rewrite Hl.
  - intros Hne. cbn [exec].
    assert (live s h = true) as ->.
    { apply live_iff. by eapply inv_keys. }
    cbn [fmap option_fmap option_map]. f_equal. unfold on_disconnect.
    set (s0 := set_rooms _ _).
    set (s1 := match botTimeout s0 !! h with Some t => clearTimeout t s0 | None => s0 end).
    assert (partners s1 = partners s ∧ sockets s1 = delete h (sockets s)) as [Ep Ek].
    { subst s1 s0. destruct s as [q m k b r t n c]; st. by destruct (b !! h). }
    destruct s1 as [q1 m1 k1 b1 r1 t1 n1 c1]; st. subst m1 k1.
    unfold falsy, live; st. rewrite E.
    rewrite bool_decide_eq_false_2 by done.
    rewrite bool_decide_eq_false_2 by congruence. st.
    apply live_iff in Hl. rewrite lookup_delete_ne by done. rewrite Hl. st.
    reflexivity.
Qed.

Lemma partner_notified_of_departure_witness :
  (on_leave "A" paired_AB).2
  = [("B", Status "Partner left the chat."); ("B", PartnerLeft);
     ("A", Status "You left the chat.")]
  ∧ snd <$> exec (Disconnect "A") paired_AB
    = Some [("B", Status "Partner disconnected."); ("B", PartnerLeft)].
Proof.
  destruct (partner_notified_of_departure paired_AB "A" "B") as [Hleave Hdisc].
  - apply state_after_reachable. vm_compute. by eexists.
  - by vm_compute.
  - done.
  - split; [exact Hleave|]. by apply Hdisc.
Defined.

Lemma filter_idemp {A} (P : A → Prop) `{!∀ x, Decision (P x)} (l : list A) :
  filter P (filter P l) = filter P l.
Proof. apply filter_all. by intros x [? _]%list_elem_of_filter. Qed.

(** X14: running the 'disconnect' handler a second time changes nothing
    and sends nothing. *)
Theorem disconnect_handler_idempotent (h : string) (s : state) :
  on_disconnect h (on_disconnect h s).1 = ((on_disconnect h s).1, []).
Proof.
  assert (∀ s', falsy (partners s' !! h) = true →
                (∀ t, botTimeout s' !! h = Some t →
                      filter (λ tm, timer_id tm ≠ t) (timers s') = timers s') →
                filter (λ id, id ≠ h) (waitingQueue s') = waitingQueue s' →
                on_disconnect h s' = (s', [])) as Hfix.
  { intros s' Hp Ht Hq. unfold on_disconnect.
    destruct s' as [q m k b r t n c]; st.
    destruct (b !! h) as [t0|] eqn:Eb;
      unfold remove_waiting, clearTimeout, set_timers, set_waitingQueue; st;
      rewrite Hp.
    - by rewrite (Ht t0 eq_refl), Hq.
    - by rewrite Hq. }
  unfold on_disconnect at 2 3.
  set (s1 := match botTimeout s !! h with Some t => clearTimeout t s | None => s end).
  assert (botTimeout s1 = botTimeout s
          ∧ (∀ t, botTimeout s !! h = Some t →
                  filter (λ tm, timer_id tm ≠ t) (timers s1) = timers s1))
    as [Eb Ht].
  { subst s1. destruct (botTimeout s !! h) as [t0|] eqn:E; st.
    - split; [done|]. intros t [= <-]. apply filter_idemp.
    - split; [done|]. by intros t. }
  destruct s1 as [q m k b r t n c]; st. subst b.
  pose proof (filter_idemp (λ id, id ≠ h) q) as Hq.
  destruct (m !! h) as [p|] eqn:Ep; cbn [falsy]; relay_cases; st.
  all: apply Hfix; st; try done; rewrite ?lookup_delete_eq, ?Ep; done.
Qed.

(** ** Timers and events *)

(** X15: in every turn of the event loop, a socket that is sent 'paired'
    with a partner id has that id as its directory entry afterwards, and a
    socket that is sent 'partner-left' has no directory entry afterwards. *)
Theorem notifications_match_directory (i : input) (s s' : state) (out : list emission) :
  exec i s = Some (s', out) →
  (∀ t p b, (t, Paired p b) ∈ out → partners s' !! t = Some p)
  ∧ (∀ t, (t, PartnerLeft) ∈ out → partners s' !! t = None).
Proof.
  intros Hexec.
  destruct i; cbn [exec] in Hexec;
    repeat match type of Hexec with
    | (if ?b then _ else _) = _ => destruct b eqn:?; [|done]
    | match ?o with Some _ => _ | None => _ end = _ => destruct o eqn:?; [|done]
    end;
    apply (inj Some) in Hexec;
    pose proof (f_equal fst Hexec) as Hs; pose proof (f_equal snd Hexec) as Ho;
    cbn [fst snd] in Hs, Ho; subst s' out; clear Hexec.
  - split; intros *; by intros ?%elem_of_nil.
  - unfold on_find. case_bool_decide; [split; intros *; in_list|].
    destruct (waitingQueue s) as [|o rest]; [split; intros *; in_list|].
    st. destruct (live _ o); [|split; intros *; in_list].
    unfold pairSockets. st. split; intros *; in_list; lookup_done.
  - unfold on_webrtc_offer, falsy.
    destruct (partners s !! h); relay_cases; split; intros *; in_list.
  - unfold on_webrtc_answer. relay_cases; split; intros *; in_list.
  - unfold on_webrtc_ice_candidate, falsy.
    destruct (partners s !! h); relay_cases; split; intros *; in_list.
  - unfold on_message, falsy.
    destruct (partners s !! h); relay_cases; split; intros *; in_list.
  - unfold on_typing, falsy.
    destruct (partners s !! h); relay_cases; split; intros *; in_list.
  - unfold on_leave, falsy.
    destruct (partners s !! h) as [p|]; relay_cases; split; intros *; in_list;
      lookup_done.
  - unfold on_disconnect.
    match goal with |- context [remove_waiting h ?x] => set (s1 := x) end.
    destruct s1 as [q m k b r t n c]; st. unfold falsy.
    destruct (m !! h) as [p|]; relay_cases; split; intros *; in_list;
      lookup_done.
  - destruct (action t0); cbn [run_callback botReply_fire fst snd];
      [|split; intros *; in_list].
    unfold botFallback_fire. destruct (_ && _); split; intros *; in_list;
      lookup_done.
  - split; intros *; by intros ?%elem_of_nil.
Qed.

Lemma notifications_match_directory_witness :
  partners paired_AB !! "B" = Some "A".
Proof.
  destruct (notifications_match_directory (Find "B")
              (state_after [Connect "A"; Connect "B"; Find "A"]) paired_AB
              [("B", Paired "A" None); ("A", Paired "B" None)]) as [Hpaired _].
  - by vm_compute.
  - apply (Hpaired "B" "A" None). by left.
Defined.

Lemma leave_sockets (h : string) (s : state) : sockets (on_leave h s).1 = sockets s.
Proof. unfold on_leave, falsy. destruct (partners s !! h); relay_cases; done. Qed.

Lemma leave_queue_subset (h x : string) (s : state) :
  x ∈ waitingQueue (on_leave h s).1 → x ∈ waitingQueue s.
Proof.
  unfold on_leave, falsy. destruct (partners s !! h); relay_cases; st; try done.
  all: by intros [_ ?]%list_elem_of_filter.
Qed.

Lemma find_partner_is_queue_head (h p : string) (s : state) :
  partners s !! h = None → partners (on_find h s).1 !! h = Some p →
  head (waitingQueue s) = Some p.
Proof.
  intros Hn. unfold on_find. rewrite Hn.
  rewrite bool_decide_eq_false_2 by (by intros [? ?]).
  destruct s as [q m k b r t n c]; st. destruct q as [|o rest].
  - cbn [ENABLE_BOT_FALLBACK]. st. congruence.
  - st. destruct (live _ o); st; [|congruence].
    unfold pairSockets; st. intros Hp. cbn. f_equal.
    destruct (decide (o = h)) as [->|].
    + rewrite lookup_insert_eq in Hp. congruence.
    + rewrite lookup_insert_ne, lookup_insert_eq in Hp by done. congruence.
Qed.

(** X16: [leave] followed by [find] (what the client's 'New' button
    sends) from a connected handle in a reachable state is always accepted;
    afterwards the handle is waiting or paired with another handle, and its
    partner is not the one it had before. *)
Theorem new_request_settles (s : state) (h : string) :
  reachable s → live s h = true →
  ∃ s' out,
    run [Leave h; Find h] s = Some (s', out)
    ∧ settled s' h
    ∧ ∀ p, partners s !! h = Some p → partners s' !! h ≠ Some p.
Proof.
  intros Hr Hl. pose proof (reachable_inv _ Hr) as Hinv.
  pose proof (inv_leave h s Hinv) as Hinv1.
  pose proof (inv_leave_idle h s Hinv) as Hidle.
  assert (live (on_leave h s).1 h = true) as Hl1.
  { unfold live in *. by rewrite leave_sockets. }
  destruct (find_settles h _ Hinv1 Hidle) as (Hset & _ & _).
  exists (on_find h (on_leave h s).1).1,
         ((on_leave h s).2 ++ (on_find h (on_leave h s).1).2 ++ []).
  split; [|split; [done|]].
  - cbn [run exec]. rewrite Hl.
    destruct (on_leave h s) as [s1 o1]. cbn [fst snd] in *. rewrite Hl1.
    by destruct (on_find h s1).
  - intros p Hp Hp'.
    apply find_partner_is_queue_head in Hp'; [|by destruct Hidle].
    apply head_Some_elem_of, leave_queue_subset in Hp'.
    destruct (inv_queue _ Hinv _ Hp') as [Hlp Hnp].
    destruct (inv_vals _ Hinv _ _ Hp) as [->|[_ Hback]]; [|congruence].
    by destruct (inv_ids _ Hinv _ Hlp).
Qed.

Lemma new_request_settles_witness :
  ∃ s' out,
    run [Leave "A"; Find "A"] paired_AB = Some (s', out)
    ∧ settled s' "A"
    ∧ ∀ p, partners paired_AB !! "A" = Some p → partners s' !! "A" ≠ Some p.
Proof.
  apply (new_request_settles paired_AB "A").
  - apply state_after_reachable. vm_compute. by eexists.
  - by vm_compute.
Defined.

(** X17: [leave] and the 'disconnect' handler of [h] keep the directory
    entry and the queue membership of every handle other than [h] and
    [h]'s partner. *)
Theorem departure_leaves_others_alone (h c : string) (s : state) :
  c ≠ h → partners s !! h ≠ Some c →
  partners (on_leave h s).1 !! c = partners s !! c
  ∧ partners (on_disconnect h s).1 !! c = partners s !! c
  ∧ (c ∈ waitingQueue (on_leave h s).1 ↔ c ∈ waitingQueue s)
  ∧ (c ∈ waitingQueue (on_disconnect h s).1 ↔ c ∈ waitingQueue s).
Proof.
  intros Hc Hp.
  assert (∀ q : list string, c ∈ filter (λ id, id ≠ h) q ↔ c ∈ q) as Hfilter.
  { intros q. rewrite list_elem_of_filter. split; [by intros [_ ?]|by intros ?]. }
  split; [|split; [|split]].
  - unfold on_leave, falsy.
    destruct (partners s !! h) as [p|]; relay_cases; st; try done;
      rewrite !lookup_delete_ne by congruence; done.
  - unfold on_disconnect.
    match goal with |- context [remove_waiting h ?x] => set (s1 := x) end.
    assert (partners s1 = partners s) as Ep.
    { subst s1. by destruct (botTimeout s !! h). }
    destruct s1 as [q m k b r t n c0]; st. subst m. unfold falsy.
    destruct (partners s !! h) as [p|]; relay_cases; st; try done;
      rewrite !lookup_delete_ne by congruence; done.
  - unfold on_leave, falsy.
    destruct (partners s !! h) as [p|]; relay_cases; st; try done; apply Hfilter.
  - unfold on_disconnect.
    match goal with |- context [remove_waiting h ?x] => set (s1 := x) end.
    assert (waitingQueue s1 = waitingQueue s) as Eq.
    { subst s1. by destruct (botTimeout s !! h). }
    destruct s1 as [q m k b r t n c0]; st. subst q. unfold falsy.
    destruct (m !! h) as [p|]; relay_cases; st; apply Hfilter.
Qed.

Lemma departure_leaves_others_alone_witness :
  partners (on_leave "A" (state_after [Connect "A"; Connect "B"; Connect "C";
                                       Connect "D"; Find "A"; Find "B"; Find "C";
                                       Find "D"])).1 !! "C"
  = Some "D".
Proof.
  destruct (departure_leaves_others_alone "A" "C"
              (state_after [Connect "A"; Connect "B"; Connect "C"; Connect "D";
                            Find "A"; Find "B"; Find "C"; Find "D"]))
    as (Hleave & _); [done | by vm_compute |].
  rewrite Hleave. by vm_compute.
Defined.

Lemma leave_and_find_keep_timers_witness :
  Timer 0 15000 (BotFallback "A") ∈ timers (on_find "B" waiting_A).1.
Proof.
  destruct (leave_and_find_keep_timers "B" waiting_A) as (_ & _ & Hfind).
  apply Hfind. vm_compute. by left.
Defined.
